(** * Notisense: the delivery subsystem

    A shallow embedding of the notification worker of [notisense_api]:
    the mail provider ([infrastructure/providers/default/email.py]), the
    intake and background runner ([application/v1/notifications/service.py])
    and the polling worker ([application/workers/notification_sender.py]),
    followed by the properties of the specification that concern them. *)

From Stdlib Require Import ZArith QArith Qminmax Lia Lqa Ascii.
From stdpp Require Import base list gmap strings sorting.

Local Open Scope Z_scope.

(** ** Python built-ins used by the sources *)

Module Py.

(** [str.isspace] on one character.  A [string] is read as a sequence of
    code points below 256; these are the white-space code points of
    Python in that range. *)
Definition isspace (c : ascii) : bool :=
  let n := N_of_ascii c in
  ((9 <=? n) && (n <=? 13) || (28 <=? n) && (n <=? 32)
   || (n =? 133) || (n =? 160))%N.

Fixpoint lstrip (s : string) : string :=
  match s with
  | EmptyString => EmptyString
  | String c t => if isspace c then lstrip t else s
  end.

Fixpoint rstrip (s : string) : string :=
  match s with
  | EmptyString => EmptyString
  | String c t =>
      match rstrip t with
      | EmptyString => if isspace c then EmptyString else String c EmptyString
      | t' => String c t'
      end
  end.

(** [s.strip()] *)
Definition strip (s : string) : string := rstrip (lstrip s).

(** Strings of white space only, and strings that begin or end with white
    space. *)
Fixpoint all_space (s : string) : bool :=
  match s with
  | EmptyString => true
  | String c t => isspace c && all_space t
  end.

Definition starts_with_space (s : string) : bool :=
  match s with
  | EmptyString => false
  | String c _ => isspace c
  end.

Fixpoint ends_with_space (s : string) : bool :=
  match s with
  | EmptyString => false
  | String c EmptyString => isspace c
  | String _ t => ends_with_space t
  end.

(** Truthiness of a [str]: the empty string is false. *)
Definition truthy (s : string) : bool :=
  match s with EmptyString => false | _ => true end.

(** [range(n)] *)
Definition range (n : Z) : list Z :=
  List.map Z.of_nat (seq 0 (Z.to_nat n)).

Fixpoint range_up (fuel : nat) (i stop step : Z) : list Z :=
  match fuel with
  | O => []
  | S fuel' =>
      if i <? stop then i :: range_up fuel' (i + step) stop step else []
  end.

Fixpoint range_down (fuel : nat) (i stop step : Z) : list Z :=
  match fuel with
  | O => []
  | S fuel' =>
      if stop <? i then i :: range_down fuel' (i + step) stop step else []
  end.

(** [range(start, stop, step)]; [None] is the [ValueError] of a zero
    step.  A range of step [>= 1] has at most [stop - start] elements, so
    the iteration count given to [range_up] is never the reason it
    stops. *)
Definition range3 (start stop step : Z) : option (list Z) :=
  if step =? 0 then None
  else if 0 <? step
       then Some (range_up (Z.to_nat (stop - start)) start stop step)
       else Some (range_down (Z.to_nat (start - stop)) start stop step).

(** [l[a:b]] for [0 <= a] and [0 <= b], the only slices the sources take. *)
Definition slice {A} (l : list A) (a b : Z) : list A :=
  take (Z.to_nat b - Z.to_nat a)%nat (drop (Z.to_nat a) l).

End Py.

(** ** infrastructure/providers/default/email.py *)

Module Email.

(** Exceptions, by class, with their text. *)
Inductive exn : Type :=
| TransportError (msg : string)
| TypeError (msg : string)
| ValueError (msg : string).

Definition str_exn (e : exn) : string :=
  match e with TransportError m | TypeError m | ValueError m => m end.

Inductive result (A : Type) : Type :=
| Ok (a : A)
| Raise (e : exn).
Arguments Ok {A} a.
Arguments Raise {A} e.

(** [MessageSchema(subject, recipients, body, subtype=html)] *)
Record MessageSchema : Type := {
  msg_subject : string;
  msg_recipients : list string;
  msg_body : string;
}.

(** What a run does to the outside, in order: a call of an instrumented
    operation, an [asyncio.sleep], a [FastMail.send_message]. *)
Inductive event : Type :=
| EvCall
| EvSleep (seconds : Q)
| EvSend (msg : MessageSchema).

Section WithWorld.

(** The world outside the process: the SMTP server and the state of
    the random generator. *)
Context {W : Type}.

(** [_fm.send_message(msg)]: [Some e] when it raises [e]. *)
Variable send_message : MessageSchema -> W -> option exn * W.

(** [random.random()] *)
Variable random : W -> Q * W.

Record state : Type := { world : W; trace : list event }.

(** Python code here is a state transformer that returns or raises. *)
Definition M (A : Type) : Type := state -> result A * state.

Definition ret {A} (a : A) : M A := fun s => (Ok a, s).

Definition raise {A} (e : exn) : M A := fun s => (Raise e, s).

Definition bind {A B} (c : M A) (k : A -> M B) : M B :=
  fun s => match c s with
           | (Ok a, s1) => k a s1
           | (Raise e, s1) => (Raise e, s1)
           end.

(** [try: return c  except Exception as exc: h(exc)] *)
Definition try_except {A} (c : M A) (h : exn -> M A) : M A :=
  fun s => match c s with
           | (Ok a, s1) => (Ok a, s1)
           | (Raise e, s1) => h e s1
           end.

Definition emit (ev : event) : M unit :=
  fun s => (Ok tt, {| world := world s; trace := trace s ++ [ev] |}).

Definition draw : M Q :=
  fun s => let '(r, w) := random (world s) in
           (Ok r, {| world := w; trace := trace s |}).

(** [await asyncio.sleep(d)] *)
Definition sleep (d : Q) : M unit := emit (EvSleep d).

Definition fm_send_message (msg : MessageSchema) : M unit :=
  fun s => let '(r, w) := send_message msg (world s) in
           let s1 := {| world := w; trace := trace s ++ [EvSend msg] |} in
           match r with
           | None => (Ok tt, s1)
           | Some e => (Raise e, s1)
           end.

(** An operation on the world, instrumented to record each call. *)
Definition counted {A} (op : W -> result A * W) : M A :=
  fun s => let '(r, w) := op (world s) in
           (r, {| world := w; trace := trace s ++ [EvCall] |}).

(** [asyncio.gather] over a list of tasks: every task is started and runs to its
    end, also when another one raises; the results come in the order of
    the arguments, and an exception of a task is raised to the awaiter.
    The tasks are run here one after the other in argument order. *)
Fixpoint gather {A} (tasks : list (M A)) : M (list A) :=
  match tasks with
  | [] => ret []
  | t :: ts =>
      fun s =>
        let '(r, s1) := t s in
        let '(rs, s2) := gather ts s1 in
        (match r, rs with
         | Raise e, _ => Raise e
         | Ok _, Raise e => Raise e
         | Ok a, Ok l => Ok (a :: l)
         end, s2)
  end.

Definition _send_one (subject body : string) (recipients : list string)
  : M unit :=
  let msg := {| msg_subject := subject;
                msg_recipients := recipients;
                msg_body := body |} in
  fm_send_message msg.

(** [min(max_delay, base_delay * (2 ** i)) * (0.5 + r)], with [r] the
    value of [random.random()]. *)
Definition sleep_for (base_delay max_delay : Q) (i : Z) (r : Q) : Q :=
  (Qmin max_delay (base_delay * inject_Z (2 ^ i)) * ((1 # 2) + r))%Q.

(** [raise last_exc]: raising [None] is a [TypeError]. *)
Definition raise_last {A} (last_exc : option exn) : M A :=
  match last_exc with
  | Some e => raise e
  | None => raise (TypeError "exceptions must derive from BaseException")
  end.

(** The [for i in range(attempts)] loop of [_retry], over the indices
    that remain. *)
Fixpoint retry_loop {A} (coro_factory : M A) (attempts : Z)
    (base_delay max_delay : Q) (indices : list Z)
    (last_exc : option exn) : M A :=
  match indices with
  | [] => raise_last last_exc
  | i :: rest =>
      try_except coro_factory (fun exc =>
        if i =? attempts - 1 then raise_last (Some exc)
        else bind draw (fun r =>
             bind (sleep (sleep_for base_delay max_delay i r)) (fun _ =>
             retry_loop coro_factory attempts base_delay max_delay
                        rest (Some exc))))
  end.

Definition _retry {A} (coro_factory : M A) (attempts : Z)
    (base_delay max_delay : Q) : M A :=
  retry_loop coro_factory attempts base_delay max_delay
             (Py.range attempts) None.


Definition sleeps (tr : list event) : list Q :=
  omap (fun ev => match ev with EvSleep d => Some d | _ => None end) tr.

Definition sends (tr : list event) : list MessageSchema :=
  omap (fun ev => match ev with EvSend m => Some m | _ => None end) tr.




(** The transport accepts every message. *)
Definition transport_never_fails : Prop :=
  forall msg w, fst (send_message msg w) = None.



(** What the retried send of one message adds to the trace: a send of that
    message first, then only sleeps and further sends of it; nothing more
    than the first send when the transport accepts every message. *)
Definition send_segment (msg : MessageSchema) (tr : list event) : Prop :=
  exists tr',
    tr = EvSend msg :: tr'
    /\ Forall (fun ev => ev = EvSend msg \/ exists d, ev = EvSleep d) tr'
    /\ (transport_never_fails -> tr' = []).

(** Defaults of [_retry]. *)
Definition default_base_delay : Q := 1 # 2.
Definition default_max_delay : Q := 4.

(** [send_email]: with [background_tasks] the retried send is handed
    back as the scheduled task; otherwise it is awaited. *)
Definition send_email (email subject body : string)
    (background_tasks : bool) (max_attempts : Z) : M (option (M unit)) :=
  let _do := _send_one subject body [email] in
  let task := _retry _do max_attempts default_base_delay default_max_delay in
  if background_tasks then ret (Some task)
  else bind task (fun _ => ret None).

(** [[str(r).strip() for r in recipients if str(r).strip()]] *)
Definition normalize (recipients : list string) : list string :=
  List.map Py.strip (List.filter (fun r => Py.truthy (Py.strip r)) recipients).

(** [[recips[i : i + batch_size] for i in range(0, len(recips), batch_size)]] *)
Definition batches_of (recips : list string) (batch_size : Z)
  : option (list (list string)) :=
  match Py.range3 0 (Z.of_nat (length recips)) batch_size with
  | None => None
  | Some starts =>
      Some (List.map (fun i => Py.slice recips i (i + batch_size)) starts)
  end.

Definition _send_batch (subject body : string) (max_attempts : Z)
    (batch : list string) : M unit :=
  _retry (_send_one subject body batch) max_attempts
         default_base_delay default_max_delay.

Definition send_email_to_many (recipients : list string)
    (subject body : string) (background_tasks : bool)
    (batch_size : Z) (max_attempts : Z) : M (option (M unit)) :=
  let recips := normalize recipients in
  match recips with
  | [] => ret None
  | _ =>
      match batches_of recips batch_size with
      | None => raise (ValueError "range() arg 3 must not be zero")
      | Some batches =>
          let _run_all :=
            bind (gather (List.map (_send_batch subject body max_attempts)
                                   batches))
                 (fun _ => ret tt) in
          if background_tasks then ret (Some _run_all)
          else bind _run_all (fun _ => ret None)
      end
  end.

End WithWorld.

Arguments state W : clear implicits.
Arguments M W A : clear implicits.

End Email.

(** ** domain/enums/notification_status.py, domain/entities/notification.py *)

Module Domain.

Inductive NotificationStatus : Type :=
| PENDING | QUEUED | PROCESSING | SENT | PARTIAL
| FAILED | RETRYING | CANCELLED | SCHEDULED.

Global Instance NotificationStatus_eq_dec : EqDecision NotificationStatus.
Proof. solve_decision. Defined.

(** A row of [notifications] (and the ORM object loaded from it), with
    the columns the delivery code reads or writes.  Times are instants
    on a discrete clock; a nullable column is an [option]. *)
Record Notification : Type := {
  id : string;
  created_at : Z;
  subject : string;
  message : string;
  recipients : list string;
  status : NotificationStatus;
  priority : Z;
  scheduled_at : option Z;
  sent_at : option Z;
  attempt_count : Z;
  last_attempt_at : option Z;
  last_error : option string;
  payload : list (string * string);
}.

(** The table, in the order a scan without [ORDER BY] visits its rows. *)
Abbreviation table := (list Notification).

Definition ids (t : table) : list string := List.map id t.

(** [id] is the primary key. *)
Definition primary_key (t : table) : Prop := NoDup (ids t).

Definition set_status (s : NotificationStatus) (n : Notification)
  : Notification :=
  {| id := id n; created_at := created_at n; subject := subject n;
     message := message n; recipients := recipients n; status := s;
     priority := priority n; scheduled_at := scheduled_at n;
     sent_at := sent_at n; attempt_count := attempt_count n;
     last_attempt_at := last_attempt_at n; last_error := last_error n;
     payload := payload n |}.

Definition set_sent_at (t : option Z) (n : Notification) : Notification :=
  {| id := id n; created_at := created_at n; subject := subject n;
     message := message n; recipients := recipients n; status := status n;
     priority := priority n; scheduled_at := scheduled_at n;
     sent_at := t; attempt_count := attempt_count n;
     last_attempt_at := last_attempt_at n; last_error := last_error n;
     payload := payload n |}.

Definition set_attempt_count (c : Z) (n : Notification) : Notification :=
  {| id := id n; created_at := created_at n; subject := subject n;
     message := message n; recipients := recipients n; status := status n;
     priority := priority n; scheduled_at := scheduled_at n;
     sent_at := sent_at n; attempt_count := c;
     last_attempt_at := last_attempt_at n; last_error := last_error n;
     payload := payload n |}.

Definition set_last_attempt_at (t : option Z) (n : Notification)
  : Notification :=
  {| id := id n; created_at := created_at n; subject := subject n;
     message := message n; recipients := recipients n; status := status n;
     priority := priority n; scheduled_at := scheduled_at n;
     sent_at := sent_at n; attempt_count := attempt_count n;
     last_attempt_at := t; last_error := last_error n;
     payload := payload n |}.

Definition set_last_error (e : option string) (n : Notification)
  : Notification :=
  {| id := id n; created_at := created_at n; subject := subject n;
     message := message n; recipients := recipients n; status := status n;
     priority := priority n; scheduled_at := scheduled_at n;
     sent_at := sent_at n; attempt_count := attempt_count n;
     last_attempt_at := last_attempt_at n; last_error := e;
     payload := payload n |}.

(** The [CheckConstraint]s of the table. *)
Definition check_constraints (n : Notification) : bool :=
  (-10 <=? priority n) && (priority n <=? 100) && (0 <=? attempt_count n).

(** A table whose identifiers are pairwise different and whose rows all
    satisfy the check constraints. *)
Definition well_formed (t : table) : Prop :=
  primary_key t /\ Forall (fun n => check_constraints n = true) t.

End Domain.

(** ** application/v1/notifications/schema.py and service.py *)

Module Service.
Import Domain.

Record CreateNotificationSchema : Type := {
  req_subject : string;
  req_recipients : list string;
  req_message : string;
  req_priority : Z;
  req_scheduled_at : option Z;
  req_payload : option (list (string * string));
}.

Record CreateBulkNotificationSchema : Type := {
  notifications : list CreateNotificationSchema;
}.

Inductive AppException : Type :=
| AppBadRequestException (detail : string).

Definition MAX_CONCURRENCY : Z := 10.

(** The store as the service sees it: the rows, and how many identifiers
    [gen_random_uuid()] has produced. *)
Record database : Type := { rows : table; uuids_drawn : nat }.

(** [UPDATE notifications SET ... WHERE id IN (...)], with the [values]
    the two bulk writes use; [upd_sent_at = None] leaves the column out
    of the statement. *)
Record Update : Type := {
  where_id_in : list string;
  upd_status : NotificationStatus;
  upd_sent_at : option Z;
  upd_last_attempt_at : Z;
  upd_attempt_count_plus : Z;
  upd_last_error : option string;
}.

Definition apply_values (u : Update) (n : Notification) : Notification :=
  let n := set_status (upd_status u) n in
  let n := match upd_sent_at u with
           | Some t => set_sent_at (Some t) n
           | None => n
           end in
  let n := set_last_attempt_at (Some (upd_last_attempt_at u)) n in
  let n := set_attempt_count (attempt_count n + upd_attempt_count_plus u) n in
  set_last_error (upd_last_error u) n.

(** [db.execute(update ...)] *)
Definition execute (u : Update) (t : table) : table :=
  List.map (fun n => if bool_decide (id n ∈ where_id_in u)
                     then apply_values u n else n) t.

(** [success_ids], [failure_ids] *)
Definition success_ids (results : list (string * bool)) : list string :=
  List.map fst (List.filter (fun r => snd r) results).

Definition failure_ids (results : list (string * bool)) : list string :=
  List.map fst (List.filter (fun r => negb (snd r)) results).

Definition success_update (ids : list string) (now : Z) : Update :=
  {| where_id_in := ids; upd_status := SENT; upd_sent_at := Some now;
     upd_last_attempt_at := now; upd_attempt_count_plus := 1;
     upd_last_error := None |}.

Definition failure_update (ids : list string) (now : Z) : Update :=
  {| where_id_in := ids; upd_status := FAILED; upd_sent_at := None;
     upd_last_attempt_at := now; upd_attempt_count_plus := 1;
     upd_last_error := Some "One or more recipient sends failed" |}.

(** The statements the bulk status update issues, in order. *)
Definition status_writes (results : list (string * bool)) (now : Z)
  : list Update :=
  (match success_ids results with
   | [] => []
   | ids => [success_update ids now]
   end) ++
  (match failure_ids results with
   | [] => []
   | ids => [failure_update ids now]
   end).

(** The end of [process_notifications_async], from [success_ids] to the
    commit: the statements executed against the table. *)
Definition apply_results (results : list (string * bool)) (now : Z)
    (t : table) : table :=
  foldl (fun t u => execute u t) t (status_writes results now).

(** What one row becomes under the statements of [status_writes]. *)
Definition after_writes (results : list (string * bool)) (now : Z)
    (n : Notification) : Notification :=
  let n1 := if bool_decide (id n ∈ success_ids results)
            then apply_values (success_update (success_ids results) now) n
            else n in
  if bool_decide (id n1 ∈ failure_ids results)
  then apply_values (failure_update (failure_ids results) now) n1
  else n1.

Section WithWorld.
Context {W : Type}.
Variable send_message : Email.MessageSchema -> W -> option Email.exn * W.
Variable random : W -> Q * W.
(** [gen_random_uuid()], by the number of identifiers drawn before. *)
Variable gen_random_uuid : nat -> string.

Local Abbreviation M := (Email.M W).

(** The row [INSERT ... RETURNING] builds from [vals]: the identifier
    and [created_at] are the server defaults, absent columns are
    [NULL]. *)
Definition new_row (uuid : string) (now : Z) (recips : list string)
    (data : CreateNotificationSchema) : Notification :=
  {| id := uuid; created_at := now;
     subject := req_subject data; message := req_message data;
     recipients := recips; status := PENDING;
     priority := req_priority data;
     scheduled_at := req_scheduled_at data;
     sent_at := None; attempt_count := 0;
     last_attempt_at := None; last_error := None;
     payload := match req_payload data with Some p => p | None => [] end |}.

(** Whether the table accepts the row; otherwise the insert raises an
    [IntegrityError]. *)
Definition accepts (t : table) (n : Notification) : bool :=
  check_constraints n && negb (bool_decide (id n ∈ ids t)).

(** The outcome of an intake call: what is returned or raised, the
    store afterwards, and the identifiers handed to the background
    runner. *)
Record intake (A : Type) : Type := {
  outcome : AppException + A;
  store : database;
  scheduled : option (list string);
}.
Arguments outcome {A}.
Arguments store {A}.
Arguments scheduled {A}.

Definition queue_notification (db : database)
    (data : CreateNotificationSchema) (now : Z) : intake Notification :=
  let recipients := Email.normalize (req_recipients data) in
  match recipients with
  | [] =>
      {| outcome := inl (AppBadRequestException
                           "At least one recipient is required.");
         store := db; scheduled := None |}
  | _ =>
      let notification :=
        new_row (gen_random_uuid (uuids_drawn db)) now recipients data in
      if accepts (rows db) notification then
        {| outcome := inr notification;
           store := {| rows := rows db ++ [notification];
                       uuids_drawn := S (uuids_drawn db) |};
           scheduled := Some [id notification] |}
      else
        {| outcome := inl (AppBadRequestException
                             "Could not queue notification: IntegrityError");
           store := {| rows := rows db;
                       uuids_drawn := S (uuids_drawn db) |};
           scheduled := None |}
  end.

(** The [for item in request.notifications] loop: [None] when an item
    has no recipient left. *)
Fixpoint bulk_values (items : list CreateNotificationSchema)
  : option (list (list string * CreateNotificationSchema)) :=
  match items with
  | [] => Some []
  | item :: rest =>
      match Email.normalize (req_recipients item) with
      | [] => None
      | recips =>
          match bulk_values rest with
          | None => None
          | Some values => Some ((recips, item) :: values)
          end
      end
  end.

(** The rows of one multi-row [INSERT]. *)
Fixpoint bulk_rows (drawn : nat) (now : Z)
    (values : list (list string * CreateNotificationSchema))
  : list Notification :=
  match values with
  | [] => []
  | (recips, item) :: rest =>
      new_row (gen_random_uuid drawn) now recips item
      :: bulk_rows (S drawn) now rest
  end.

(** The statement is atomic: every row is accepted, or none is kept. *)
Fixpoint accepts_all (t : table) (new : list Notification) : bool :=
  match new with
  | [] => true
  | n :: rest => accepts t n && accepts_all (t ++ [n]) rest
  end.

Definition queue_bulk_notifications (db : database)
    (request : CreateBulkNotificationSchema) (now : Z)
  : intake (list string) :=
  match notifications request with
  | [] => {| outcome := inr []; store := db; scheduled := None |}
  | items =>
      match bulk_values items with
      | None =>
          {| outcome := inl (AppBadRequestException
               "All notifications must have at least one recipient.");
             store := db; scheduled := None |}
      | Some values =>
          let new := bulk_rows (uuids_drawn db) now values in
          let drawn := (uuids_drawn db + length new)%nat in
          if accepts_all (rows db) new then
            {| outcome := inr (ids new);
               store := {| rows := rows db ++ new; uuids_drawn := drawn |};
               scheduled := Some (ids new) |}
          else
            {| outcome := inl (AppBadRequestException
                 "Failed to queue bulk notifications: IntegrityError");
               store := {| rows := rows db; uuids_drawn := drawn |};
               scheduled := None |}
      end
  end.

(** The inner [_send_one] of [process_notifications_async]. *)
Definition _send_one (n : Notification) : M (string * bool) :=
  Email.try_except
    (Email.bind
       (Email.send_email_to_many send_message random
          (recipients n) (subject n) (message n) false 50 3)
       (fun _ => Email.ret (id n, true)))
    (fun _ => Email.ret (id n, false)).

(** [process_notifications_async]; [now] is the instant read after the
    sends.  It returns the table after the commit. *)
Definition process_notifications_async (notification_ids : list string)
    (now : Z) (t : table) : M table :=
  match notification_ids with
  | [] => Email.ret t
  | _ =>
      let items :=
        List.filter (fun n => bool_decide (id n ∈ notification_ids)) t in
      match items with
      | [] => Email.ret t
      | _ =>
          Email.bind (Email.gather (List.map _send_one items))
            (fun results => Email.ret (apply_results results now t))
      end
  end.

End WithWorld.

Arguments outcome {A}.
Arguments store {A}.
Arguments scheduled {A}.

End Service.


(** ** application/workers/notification_sender.py *)

Module Worker.
Import Domain.

Definition WORKER_SLEEP_INTERVAL : Z := 10.
Definition BATCH_SIZE : Z := 50.

(** [settings.NOTIFICATION_MAX_CONCURRENCY], at its default. *)
Definition NOTIFICATION_MAX_CONCURRENCY : Z := 10.

(** [status == PENDING AND scheduled_at <= now]; a comparison with a
    [NULL] schedule time is not true. *)
Definition due (now : Z) (n : Notification) : bool :=
  bool_decide (status n = PENDING)
  && match scheduled_at n with
     | Some at_ => at_ <=? now
     | None => false
     end.

(** [ORDER BY priority DESC, created_at ASC]: [a] may come before [b]. *)
Definition claim_order (a b : Notification) : Prop :=
  priority b < priority a
  \/ (priority a = priority b /\ created_at a <= created_at b).

Global Instance claim_order_dec : RelDecision claim_order.
Proof. intros a b. unfold claim_order. apply _. Defined.

(** Rows another transaction holds a lock on are left out by
    [FOR UPDATE SKIP LOCKED]. *)
Definition claimable (now : Z) (locked : list string) (n : Notification)
  : bool :=
  due now n && negb (bool_decide (id n ∈ locked)).

(** The locking subquery: the identifiers of the first [limit] claimable
    rows in [claim_order] (rows that compare equal come in an order the
    engine chooses; here the one of the sort). *)
Definition subquery (limit now : Z) (locked : list string) (t : table)
  : list string :=
  ids (take (Z.to_nat limit)
            (merge_sort claim_order (List.filter (claimable now locked) t))).

(** [select(Notification).where(Notification.id.in_(select(subquery)))]:
    the statement has no [ORDER BY] of its own, its rows come in scan
    order. *)
Definition select_batch (limit now : Z) (locked : list string) (t : table)
  : list Notification :=
  List.filter (fun n => bool_decide (id n ∈ subquery limit now locked t)) t.

(** The objects of the ORM session, one per primary key (its identity
    map).  A list of notifications in the worker is a list of references
    to these objects, written as their keys. *)
Definition load (batch : list Notification) : gmap string Notification :=
  list_to_map (List.map (fun n => (id n, n)) batch).

(** [db.commit()]: the loaded objects are written back to their rows. *)
Definition commit (objects : gmap string Notification) (t : table) : table :=
  List.map (fun row => default row (objects !! id row)) t.

(** [for notif in batch_to_process: notif.status = PROCESSING] *)
Definition mark_processing (objects : gmap string Notification)
    (batch : list string) : gmap string Notification :=
  foldl (fun h ref => alter (set_status PROCESSING) ref h) objects batch.

(** The body of the [for notification, ok, err_msg in results] loop, on
    the notification, and on the session that holds it. *)
Definition settle (now : Z) (ok : bool) (err_msg : option string)
    (n : Notification) : Notification :=
  let n := set_last_attempt_at (Some now) n in
  let n := set_attempt_count (attempt_count n + 1) n in
  if ok
  then set_last_error None (set_sent_at (Some now) (set_status SENT n))
  else set_last_error err_msg (set_status FAILED n).

Definition record_result (now : Z) (objects : gmap string Notification)
    (res : string * bool * option string) : gmap string Notification :=
  let '(ref, ok, err_msg) := res in
  alter (settle now ok err_msg) ref objects.

Section WithWorld.
Context {W : Type}.
Variable send_message : Email.MessageSchema -> W -> option Email.exn * W.
Variable random : W -> Q * W.

Local Abbreviation M := (Email.M W).

(** The inner [_send_one] of [process_batch], on the object [ref] denotes
    (a reference always denotes one; the other branch is never taken from
    [main_loop]). *)
Definition _send_one (objects : gmap string Notification) (ref : string)
  : M (string * bool * option string) :=
  match objects !! ref with
  | Some notification =>
      Email.try_except
        (Email.bind
           (Email.gather
              (List.map (fun r => Email.send_email send_message random r
                                    (subject notification)
                                    (message notification) false 3)
                        (recipients notification)))
           (fun _ => Email.ret (ref, true, None)))
        (fun exc => Email.ret (ref, false, Some (Email.str_exn exc)))
  | None => Email.ret (ref, false, None)
  end.

(** [process_batch(db, batch)]; [now] is the instant read after the sends.
    It returns the session's objects and the table after the commit. *)
Definition process_batch (objects : gmap string Notification) (t : table)
    (batch : list string) (now : Z)
  : M (gmap string Notification * table) :=
  Email.bind (Email.gather (List.map (_send_one objects) batch))
    (fun results =>
       let objects' := foldl (record_result now) objects results in
       Email.ret (objects', commit objects' t)).

(** One turn of the [while True] loop of [main_loop]: [now] is the instant
    of the query, [now'] the one read in [process_batch], [locked] the rows
    other workers hold.  It returns the table as committed. *)
Definition main_loop_turn (limit now now' : Z) (locked : list string)
    (t : table) : M table :=
  Email.try_except
    (let batch_to_process := select_batch limit now locked t in
     match batch_to_process with
     | [] =>
         Email.bind (Email.sleep (inject_Z WORKER_SLEEP_INTERVAL))
                    (fun _ => Email.ret t)
     | _ =>
         let refs := ids batch_to_process in
         let objects := mark_processing (load batch_to_process) refs in
         let t1 := commit objects t in
         Email.bind (process_batch objects t1 refs now')
                    (fun r => Email.ret (snd r))
     end)
    (fun _ =>
       Email.bind (Email.sleep (inject_Z (WORKER_SLEEP_INTERVAL * 2)))
                  (fun _ => Email.ret t)).

End WithWorld.

End Worker.


(** ** The loop of [main_loop], turn after turn *)

Module WorkerLoop.
Import Domain.

(** A row after some turns, against the row before them: untouched, or
    claimed once while PENDING and settled. *)
Definition attempted_at_most_once (n n' : Notification) : Prop :=
  n' = n
  \/ (status n = PENDING
      /\ attempt_count n' = attempt_count n + 1
      /\ (status n' = SENT \/ status n' = FAILED)).

Section WithWorld.
Context {W : Type}.
Variable send_message : Email.MessageSchema -> W -> option Email.exn * W.
Variable random : W -> Q * W.

(** The first turns of the [while True] loop.  Each turn comes with what
    the outside decides for it: the instant of its query, the instant read
    in [process_batch], and the rows other workers hold locked. *)
Fixpoint main_loop_turns (limit : Z) (turns : list (Z * Z * list string))
    (t : table) : Email.M W table :=
  match turns with
  | [] => Email.ret t
  | (now, now', locked) :: rest =>
      Email.bind
        (Worker.main_loop_turn send_message random limit now now' locked t)
        (fun t' => main_loop_turns limit rest t')
  end.

End WithWorld.

End WorkerLoop.

(** ** application/v1/notifications/controller.py and main.py *)

Module Controller.
Import Domain Service.

(** The [data] of a response: absent, a text, or a list of texts. *)
Inductive payload : Type :=
| NoData
| Text (s : string)
| Texts (l : list string).

(** [BaseResponseSchema]; [status_code] defaults to 200. *)
Record BaseResponseSchema : Type := {
  data : payload;
  success : bool;
  message : string;
  status_code : Z;
}.

(** What the client receives: the HTTP status and the body. *)
Record response : Type := {
  http_status : Z;
  body : BaseResponseSchema;
}.

Definition HTTP_202_ACCEPTED : Z := 202.
Definition HTTP_400_BAD_REQUEST : Z := 400.

(** [base_exception_handler] of main.py, for the exceptions the service
    raises: an [AppBadRequestException] carries the status 400. *)
Definition base_exception_handler (exc : AppException) : response :=
  match exc with
  | AppBadRequestException detail =>
      {| http_status := HTTP_400_BAD_REQUEST;
         body := {| data := NoData; success := false; message := detail;
                    status_code := HTTP_400_BAD_REQUEST |} |}
  end.

Section WithServer.
Variable gen_random_uuid : nat -> string.

(** [POST /send-email], on a request that passed validation: the endpoint
    answers 202 with the body it builds, or the handler answers for the
    exception.  The store and the identifiers handed to the runner come
    with the answer. *)
Definition queue_email_notification (db : database)
    (request : CreateNotificationSchema) (now : Z)
  : response * database * option (list string) :=
  let r := queue_notification gen_random_uuid db request now in
  match outcome r with
  | inr notification =>
      ({| http_status := HTTP_202_ACCEPTED;
          body := {| data := Text ("Notification '" ++ id notification
                                   ++ "' has been queued.");
                     success := true; message := "Notification accepted";
                     status_code := 200 |} |},
       store r, scheduled r)
  | inl exc => (base_exception_handler exc, store r, scheduled r)
  end.

(** [POST /send-emails-bulk] *)
Definition queue_bulk_email_notifications (db : database)
    (request : CreateBulkNotificationSchema) (now : Z)
  : response * database * option (list string) :=
  let r := queue_bulk_notifications gen_random_uuid db request now in
  match outcome r with
  | inr notification_ids =>
      ({| http_status := HTTP_202_ACCEPTED;
          body := {| data := Texts notification_ids;
                     success := true; message := "Notifications accepted";
                     status_code := 200 |} |},
       store r, scheduled r)
  | inl exc => (base_exception_handler exc, store r, scheduled r)
  end.

End WithServer.

End Controller.

(** ** domain/utilities *)

Module Utilities.

(** *** tokenizer.py *)

(** [generate_secure_number]; [randbelow n] stands for the draw of
    [secrets.randbelow(n)]. *)
Definition generate_secure_number (randbelow : Z -> Z) (digits : Z) : Z :=
  let digits := if digits <=? 0 then 6 else digits in
  let lower_bound := 10 ^ (digits - 1) in
  let upper_bound := 10 ^ digits - 1 in
  randbelow (upper_bound - lower_bound + 1) + lower_bound.

(** *** file_manager.py *)

(** [data.split(",", 1)]: the text before the first comma and, when there
    is a comma, the text after it. *)
Fixpoint split_at_first_comma (data : string) : string * option string :=
  match data with
  | EmptyString => (EmptyString, None)
  | String c t =>
      if Ascii.eqb c ","
      then (EmptyString, Some t)
      else let '(before, after) := split_at_first_comma t in
           (String c before, after)
  end.

Definition split_comma_once (data : string) : list string :=
  match split_at_first_comma data with
  | (before, None) => [before]
  | (before, Some after) => [before; after]
  end.

(** [clean_base64] *)
Definition clean_base64 (data : string) : string :=
  let parts := split_comma_once data in
  if (1 <? length parts)%nat
  then nth 1 parts EmptyString
  else nth 0 parts EmptyString.

(** *** slugify.py *)

(** [str.lower] on one code point below 256. *)
Definition lower_char (c : ascii) : ascii :=
  let n := N_of_ascii c in
  if ((65 <=? n) && (n <=? 90)
      || (192 <=? n) && (n <=? 222) && negb (n =? 215))%N
  then ascii_of_N (n + 32)
  else c.

Fixpoint lower (s : string) : string :=
  match s with
  | EmptyString => EmptyString
  | String c t => String (lower_char c) (lower t)
  end.

(** The class [[a-z0-9]]. *)
Definition alnum_lower (c : ascii) : bool :=
  let n := N_of_ascii c in
  ((97 <=? n) && (n <=? 122) || (48 <=? n) && (n <=? 57))%N.

(** [re.sub(r'[^a-z0-9]+', '-', s)]: every maximal run of characters
    outside the class becomes one hyphen.  [in_run] tells that the run the
    scan is in has got its hyphen already. *)
Fixpoint sub_runs (in_run : bool) (s : string) : string :=
  match s with
  | EmptyString => EmptyString
  | String c t =>
      if alnum_lower c then String c (sub_runs false t)
      else if in_run then sub_runs true t
           else String "-" (sub_runs true t)
  end.

(** [s.strip('-')] *)
Fixpoint lstrip_hyphens (s : string) : string :=
  match s with
  | EmptyString => EmptyString
  | String c t => if Ascii.eqb c "-" then lstrip_hyphens t else s
  end.

Fixpoint rstrip_hyphens (s : string) : string :=
  match s with
  | EmptyString => EmptyString
  | String c t =>
      match rstrip_hyphens t with
      | EmptyString =>
          if Ascii.eqb c "-" then EmptyString else String c EmptyString
      | t' => String c t'
      end
  end.

Definition strip_hyphens (s : string) : string :=
  rstrip_hyphens (lstrip_hyphens s).

(** [generate_slug]; [unidecode] is the transliteration of the library of
    that name. *)
Definition generate_slug (unidecode : string -> string) (name : string)
  : string :=
  let slug := lower (unidecode name) in
  strip_hyphens (sub_runs false slug).

(** Vocabulary for slugs: all characters in [[a-z0-9-]], a hyphen at
    either end, two hyphens in a row. *)
Fixpoint slug_chars (s : string) : bool :=
  match s with
  | EmptyString => true
  | String c t => (alnum_lower c || Ascii.eqb c "-") && slug_chars t
  end.

Definition starts_with_hyphen (s : string) : bool :=
  match s with
  | String c _ => Ascii.eqb c "-"
  | EmptyString => false
  end.

Fixpoint ends_with_hyphen (s : string) : bool :=
  match s with
  | EmptyString => false
  | String c EmptyString => Ascii.eqb c "-"
  | String _ t => ends_with_hyphen t
  end.

Fixpoint double_hyphen (s : string) : bool :=
  match s with
  | EmptyString => false
  | String c t =>
      (Ascii.eqb c "-" && starts_with_hyphen t) || double_hyphen t
  end.

Fixpoint has_comma (s : string) : bool :=
  match s with
  | EmptyString => false
  | String c t => Ascii.eqb c "," || has_comma t
  end.

End Utilities.

(** ** Test data *)

Module Examples.
Import Email.

(** A world that only counts the calls made so far. *)
Definition fresh : state nat := {| world := 0%nat; trace := [] |}.

(** An operation that always fails. *)
Definition always_fails (w : nat) : result string * nat :=
  (Raise (TransportError "connection refused"), S w).

(** An operation that fails once and then succeeds. *)
Definition second_time_lucky (w : nat) : result string * nat :=
  (if (w =? 1)%nat then Ok "250 OK" else Raise (TransportError "421 busy"), S w).

(** A random generator stuck at [0.75]. *)
Definition three_quarters (w : nat) : Q * nat := (3 # 4, w).

(** A transport that refuses its first three messages. *)
Definition refuses_three (msg : MessageSchema) (w : nat) : option exn * nat :=
  (if (w <? 3)%nat then Some (TransportError "451 try later") else None, S w).

(** A transport that accepts everything. *)
Definition accepts_all_mail (msg : MessageSchema) (w : nat) : option exn * nat :=
  (None, S w).

Definition addresses (n : nat) : list string := replicate n "ada@example.org".

(** Identifiers for the rows inserted first, second, ... *)
Definition uuid (k : nat) : string :=
  String "n" (String (ascii_of_nat (48 + k)) "").

Definition empty_store : Service.database :=
  {| Service.rows := []; Service.uuids_drawn := 0 |}.

Definition request (recipients : list string) : Service.CreateNotificationSchema :=
  {| Service.req_subject := "hello"; Service.req_recipients := recipients;
     Service.req_message := "<p>hi</p>"; Service.req_priority := 0;
     Service.req_scheduled_at := None; Service.req_payload := None |}.

(** A pending job, due from instant 0 on. *)
Definition job (name : string) (prio created : Z) : Domain.Notification :=
  {| Domain.id := name; Domain.created_at := created;
     Domain.subject := "hello"; Domain.message := "<p>hi</p>";
     Domain.recipients := ["ada@example.org"];
     Domain.status := Domain.PENDING; Domain.priority := prio;
     Domain.scheduled_at := Some 0; Domain.sent_at := None;
     Domain.attempt_count := 0; Domain.last_attempt_at := None;
     Domain.last_error := None; Domain.payload := [] |}.

(** A pending job queued without a schedule time. *)
Definition unscheduled_job (name : string) : Domain.Notification :=
  {| Domain.id := name; Domain.created_at := 1;
     Domain.subject := "hello"; Domain.message := "<p>hi</p>";
     Domain.recipients := ["ada@example.org"];
     Domain.status := Domain.PENDING; Domain.priority := 0;
     Domain.scheduled_at := None; Domain.sent_at := None;
     Domain.attempt_count := 0; Domain.last_attempt_at := None;
     Domain.last_error := None; Domain.payload := [] |}.

(** The three due jobs of the specification, in creation order. *)
Definition three_jobs : list Domain.Notification :=
  [job "j1" 5 1; job "j2" 1 2; job "j3" 5 3].

End Examples.

(** * Properties *)

(** ** The retrier *)

Section Retrier.
Import Email.
Context {W A : Type}.
Variable random : W -> Q * W.
Variable op : W -> result A * W.
Variables (attempts : Z) (base_delay max_delay : Q).

Local Abbreviation loop := (retry_loop random (counted op) attempts base_delay max_delay).










Lemma sleeps_app (tr1 tr2 : list event) :
  sleeps (tr1 ++ tr2) = sleeps tr1 ++ sleeps tr2.
Proof. apply omap_app. Qed.


End Retrier.

Section RetrierClaims.
Import Email.
Context {W A : Type}.
Variable random : W -> Q * W.


(** C10.  With [attempts <= 0] the retrier does not run the operation at
    all (the state it is given comes back untouched) and raises the
    [TypeError] of [raise None], which is no error of the operation. *)
Theorem retry_without_attempts_raises_type_error
    (coro_factory : M W A) (attempts : Z) (base_delay max_delay : Q)
    (s : state W) :
  attempts <= 0 ->
  _retry random coro_factory attempts base_delay max_delay s
  = (Raise (TypeError "exceptions must derive from BaseException"), s).
Proof.
  intros Hn. unfold _retry, Py.range.
  replace (Z.to_nat attempts) with 0%nat by lia. reflexivity.
Qed.

End RetrierClaims.

(** The two runs the specification describes for [attempts = 3]. *)
Example retry_three_failures :
  Email._retry Examples.three_quarters (Email.counted Examples.always_fails)
               3 Email.default_base_delay Email.default_max_delay Examples.fresh
  = (Email.Raise (Email.TransportError "connection refused"),
     {| Email.world := 3%nat;
        Email.trace := [Email.EvCall; Email.EvSleep ((1 # 2) * inject_Z 1 * ((1 # 2) + (3 # 4)));
                        Email.EvCall; Email.EvSleep ((1 # 2) * inject_Z 2 * ((1 # 2) + (3 # 4)));
                        Email.EvCall] |}).
Proof. reflexivity. Qed.

Example retry_success_on_second_call :
  Email._retry Examples.three_quarters (Email.counted Examples.second_time_lucky)
               3 Email.default_base_delay Email.default_max_delay Examples.fresh
  = (Email.Ok "250 OK",
     {| Email.world := 2%nat;
        Email.trace := [Email.EvCall; Email.EvSleep ((1 # 2) * inject_Z 1 * ((1 # 2) + (3 # 4)));
                        Email.EvCall] |}).
Proof. reflexivity. Qed.


Lemma retry_without_attempts_raises_type_error_witness :
  0 <= 0
  /\ Email._retry Examples.three_quarters
       (Email.counted Examples.always_fails) 0 (1 # 2) 4 Examples.fresh
     = (Email.Raise (Email.TypeError "exceptions must derive from BaseException"),
        Examples.fresh).
Proof.
  split; [lia|].
  apply (retry_without_attempts_raises_type_error Examples.three_quarters
           (Email.counted Examples.always_fails) 0 (1 # 2) 4 Examples.fresh).
  lia.
Defined.

(** ** The backoff delay *)

Section Backoff.
Import Email.
Context {W A : Type}.
Variable random : W -> Q * W.




End Backoff.



(** ** Chunking of recipients *)

Section Chunking.

Lemma range_up_spec (fuel : nat) (i stop step : Z) :
  0 < step -> stop - i <= Z.of_nat fuel ->
  Py.range_up fuel i stop step
  = List.map (fun k => i + Z.of_nat k * step)
             (seq 0 (Z.to_nat ((stop - i + step - 1) / step))).
Proof.
  intros Hstep. revert i. induction fuel as [|fuel IH]; intros i Hfuel.
  - assert ((stop - i + step - 1) / step < 1)
      by (apply Z.div_lt_upper_bound; lia).
    replace (Z.to_nat _) with 0%nat by lia. reflexivity.
  - cbn [Py.range_up]. destruct (Z.ltb_spec i stop) as [Hlt|Hge].
    + rewrite IH by lia.
      replace (stop - i + step - 1) with (stop - (i + step) + step - 1 + 1 * step)
        by lia.
      rewrite Z.div_add by lia.
      assert (0 <= (stop - (i + step) + step - 1) / step)
        by (apply Z.div_pos; lia).
      replace (Z.to_nat (_ + 1)) with (S (Z.to_nat ((stop - (i + step) + step - 1) / step)))
        by lia.
      cbn [seq List.map]. f_equal; [lia|].
      rewrite <- seq_shift, List.map_map. apply List.map_ext. intros k. lia.
    + assert ((stop - i + step - 1) / step < 1)
        by (apply Z.div_lt_upper_bound; lia).
      replace (Z.to_nat _) with 0%nat by lia. reflexivity.
Qed.

Context {A : Type}.

Lemma slice_take_drop (l : list A) (k b : nat) :
  Py.slice l (Z.of_nat k * Z.of_nat b) (Z.of_nat k * Z.of_nat b + Z.of_nat b)
  = take b (drop (k * b) l).
Proof.
  unfold Py.slice. f_equal; [lia|f_equal; lia].
Qed.

(** The chunks of [l] by [b]: chunk [k] holds the (at most) [b] elements
    from position [k * b] on. *)
Lemma concat_chunks (l : list A) (b c : nat) :
  concat (List.map (fun k => take b (drop (k * b) l)) (seq 0 c))
  = take (c * b) l.
Proof.
  induction c as [|c IH]; [by rewrite take_0|].
  rewrite seq_S, List.map_app, concat_app, IH. cbn [List.map concat].
  rewrite app_nil_r, take_take_drop. f_equal. lia.
Qed.

End Chunking.

Section RecipientBatches.
Import Email.

(** [ceil(n / b)] for [b >= 1]. *)
Lemma ceil_div_spec (n b : Z) :
  0 <= n -> 1 <= b ->
  let c := (n + b - 1) / b in
  b * (c - 1) < n <= b * c.
Proof.
  intros Hn Hb c. subst c.
  pose proof (Z.div_mod (n + b - 1) b ltac:(lia)).
  pose proof (Z.mod_pos_bound (n + b - 1) b ltac:(lia)). nia.
Qed.

Lemma batches_of_spec (recips : list string) (batch_size : Z) :
  1 <= batch_size ->
  batches_of recips batch_size
  = Some (List.map (fun k => take (Z.to_nat batch_size)
                                  (drop (k * Z.to_nat batch_size) recips))
            (seq 0 (Z.to_nat ((Z.of_nat (length recips) + batch_size - 1)
                              / batch_size)))).
Proof.
  intros Hb. unfold batches_of, Py.range3.
  destruct (Z.eqb_spec batch_size 0) as [|_]; [lia|].
  destruct (Z.ltb_spec 0 batch_size) as [_|]; [|lia].
  rewrite range_up_spec by lia. f_equal.
  rewrite List.map_map, Z.sub_0_r. apply List.map_ext. intros k.
  rewrite <- (slice_take_drop recips k (Z.to_nat batch_size)).
  f_equal; lia.
Qed.

(** The shape of the batches: how many, what each holds, and that together
    they are the recipients, in order. *)
Lemma batches_of_shape (recips : list string) (batch_size : Z) :
  1 <= batch_size ->
  let n := Z.of_nat (length recips) in
  exists batches,
    batches_of recips batch_size = Some batches
    /\ Z.of_nat (length batches) = (n + batch_size - 1) / batch_size
    /\ concat batches = recips
    /\ forall (k : nat) (batch : list string),
         batches !! k = Some batch ->
         batch = take (Z.to_nat batch_size)
                      (drop (k * Z.to_nat batch_size) recips)
         /\ (if decide ((Z.of_nat k + 1) * batch_size <= n)
             then Z.of_nat (length batch) = batch_size
             else Z.of_nat k = n / batch_size
                  /\ n mod batch_size <> 0
                  /\ Z.of_nat (length batch) = n mod batch_size).
Proof.
  intros Hb n. eexists. split; [by apply batches_of_spec|].
  pose proof (ceil_div_spec n batch_size ltac:(lia) Hb) as Hc. cbn zeta in Hc.
  assert (Hq0 : 0 <= (n + batch_size - 1) / batch_size)
    by (apply Z.div_pos; lia).
  fold n. set (q := (n + batch_size - 1) / batch_size) in *.
  set (b := Z.to_nat batch_size).
  assert (Hb' : Z.of_nat b = batch_size) by (subst b; lia).
  assert (Hn : Z.of_nat (length recips) = n) by done.
  clearbody n q b.
  split; [|split].
  - rewrite length_map, length_seq. lia.
  - rewrite concat_chunks. apply take_ge. nia.
  - intros k batch Hk.
    rewrite list_lookup_fmap in Hk.
    destruct (seq 0 (Z.to_nat q) !! k) as [k'|] eqn:Ek; [|done].
    apply lookup_seq in Ek as [-> Hkc]. cbn in Hk. injection Hk as <-.
    split; [done|].
    rewrite length_take, length_drop.
    pose proof (Z.div_mod n batch_size ltac:(lia)) as Hdm.
    pose proof (Z.mod_pos_bound n batch_size ltac:(lia)) as Hmod.
    assert (Hkn : Z.of_nat k * batch_size < n) by nia.
    assert (Hkb : Z.of_nat (k * b) = Z.of_nat k * batch_size) by nia.
    case_decide as Hfull.
    + lia.
    + assert (Z.of_nat k = n / batch_size) as Hq.
      { apply (Z.div_unique n batch_size (Z.of_nat k)
                 (n - Z.of_nat k * batch_size)); lia. }
      split; [done|].
      assert (n mod batch_size = n - Z.of_nat k * batch_size) as Hm
        by (rewrite Hq in *; lia).
      split; lia.
Qed.

End RecipientBatches.

Example batches_120_by_50 :
  List.map length
    (default [] (Email.batches_of (List.map (fun _ => "a@b.c") (seq 0 120)) 50))
  = [50; 50; 20]%nat.
Proof. vm_compute. reflexivity. Qed.

(** ** Sending to many recipients *)

Section SendToMany.
Import Email.
Context {W : Type}.
Variable send_message : MessageSchema -> W -> option exn * W.
Variable random : W -> Q * W.

Lemma retry_loop_send_trace (msg : MessageSchema) (attempts : Z)
    (base_delay max_delay : Q) (l : list Z) last s :
  exists tr,
    trace (snd (retry_loop random (fm_send_message send_message msg) attempts
                           base_delay max_delay l last s))
    = trace s ++ tr
    /\ Forall (fun ev => ev = EvSend msg \/ exists d, ev = EvSleep d) tr
    /\ (l <> [] -> exists tr', tr = EvSend msg :: tr'
                               /\ (transport_never_fails send_message -> tr' = [])).
Proof.
  revert last s. induction l as [|i l IH]; intros last s.
  - exists []. rewrite app_nil_r. split; [by destruct last|]. split; [constructor|done].
  - cbn [retry_loop]. unfold try_except, fm_send_message at 1.
    destruct (send_message msg (world s)) as [[e|] w1] eqn:Es.
    + destruct (i =? attempts - 1).
      * exists [EvSend msg]. cbn [raise_last raise snd trace].
        split; [done|]. split; [by repeat constructor; left|].
        intros _. by exists [].
      * unfold bind at 1, draw. cbn [world trace].
        destruct (random w1) as [r w2].
        unfold bind at 1, sleep, emit. cbn [world trace].
        destruct (IH (Some e)
                    {| world := w2;
                       trace := (trace s ++ [EvSend msg]) ++
                                [EvSleep (sleep_for base_delay max_delay i r)] |})
          as (tr & Htr & Hall & _).
        exists (EvSend msg :: EvSleep (sleep_for base_delay max_delay i r) :: tr).
        rewrite Htr. cbn [trace]. rewrite <- !app_assoc. split; [done|].
        split.
        -- constructor; [by left|]. constructor; [right; by eexists|done].
        -- intros _. eexists. split; [done|]. intros Hnever.
           specialize (Hnever msg (world s)). rewrite Es in Hnever. done.
    + exists [EvSend msg]. cbn [snd trace].
      split; [done|]. split; [by repeat constructor; left|].
      intros _. by exists [].
Qed.

Lemma _send_batch_segment (subject body : string) (max_attempts : Z)
    (batch : list string) s :
  1 <= max_attempts ->
  exists tr,
    trace (snd (_send_batch send_message random subject body max_attempts
                            batch s)) = trace s ++ tr
    /\ send_segment send_message {| msg_subject := subject; msg_recipients := batch;
                       msg_body := body |} tr.
Proof.
  intros Hn. unfold _send_batch, _retry, _send_one.
  destruct (retry_loop_send_trace
              {| msg_subject := subject; msg_recipients := batch;
                 msg_body := body |}
              max_attempts default_base_delay default_max_delay
              (Py.range max_attempts) None s) as (tr & Htr & Hall & Hhead).
  exists tr. split; [exact Htr|].
  destruct Hhead as (tr' & -> & Hnever).
  - unfold Py.range. destruct (Z.to_nat max_attempts) eqn:E; [lia|done].
  - exists tr'. split; [done|]. split; [|done].
    by apply Forall_cons in Hall as [_ ?].
Qed.

(** [gather] runs every task: the trace grows by the segment of each, in
    order, whatever the tasks return or raise. *)
Lemma gather_trace {X A} (f : X -> M W A) (P : X -> list event -> Prop)
    (xs : list X) :
  (forall x s, exists tr, trace (snd (f x s)) = trace s ++ tr /\ P x tr) ->
  forall s, exists trs,
    trace (snd (gather (List.map f xs) s)) = trace s ++ concat trs
    /\ Forall2 P xs trs.
Proof.
  intros Hf. induction xs as [|x xs IH]; intros s.
  - exists []. cbn. rewrite app_nil_r. split; [done|constructor].
  - cbn [List.map gather].
    destruct (Hf x s) as (tr & Htr & HP).
    destruct (f x s) as [r s1]. cbn [snd] in Htr.
    destruct (IH s1) as (trs & Htrs & HPs).
    destruct (gather (List.map f xs) s1) as [rs s2]. cbn [snd] in *.
    exists (tr :: trs). rewrite Htrs, Htr. cbn [concat].
    rewrite app_assoc. split; [done|by constructor].
Qed.



End SendToMany.


(** 120 recipients by 50: the first batch is refused three times and gives
    up; the batches of 50 and of 20 after it are sent all the same. *)
Example send_120_by_50_with_a_failing_chunk :
  let out := Email.send_email_to_many Examples.refuses_three
               Examples.three_quarters (Examples.addresses 120)
               "hello" "<p>hi</p>" false 50 3 Examples.fresh in
  fst out = Email.Raise (Email.TransportError "451 try later")
  /\ List.map (fun m => length (Email.msg_recipients m))
              (Email.sends (Email.trace (snd out)))
     = [50; 50; 50; 50; 20]%nat.
Proof. vm_compute. split; reflexivity. Qed.

Example send_120_by_50 :
  let out := Email.send_email_to_many Examples.accepts_all_mail
               Examples.three_quarters (Examples.addresses 120)
               "hello" "<p>hi</p>" false 50 3 Examples.fresh in
  fst out = Email.Ok None
  /\ List.map (fun m => length (Email.msg_recipients m))
              (Email.sends (Email.trace (snd out)))
     = [50; 50; 20]%nat.
Proof. vm_compute. split; reflexivity. Qed.

(** ** Normalising recipients *)

Section Strip.
Import Py.

Lemma lstrip_spec (s : string) :
  exists pre, s = (pre ++ lstrip s)%string
              /\ all_space pre = true
              /\ starts_with_space (lstrip s) = false.
Proof.
  induction s as [|c t (pre & Hs & Hpre & Hhd)].
  - by exists ""%string.
  - cbn [lstrip]. destruct (isspace c) eqn:Ec.
    + exists (String c pre).
      split; [change (String c t = String c (pre ++ lstrip t)%string);
              by rewrite <- Hs|].
      split; [cbn; by rewrite Ec|done].
    + exists ""%string. split; [done|]. split; [done|]. cbn. by rewrite Ec.
Qed.

Lemma rstrip_spec (s : string) :
  exists post, s = (rstrip s ++ post)%string
               /\ all_space post = true
               /\ ends_with_space (rstrip s) = false.
Proof.
  induction s as [|c t (post & Hs & Hpost & Hend)].
  - by exists ""%string.
  - cbn [rstrip]. destruct (rstrip t) as [|c' t'] eqn:Et.
    + destruct (isspace c) eqn:Ec.
      * exists (String c post). change (t = post) in Hs.
        split; [change (String c t = String c post); by rewrite <- Hs|].
        split; [cbn; by rewrite Ec|done].
      * exists post. change (t = post) in Hs.
        split; [change (String c t = String c post); by rewrite <- Hs|].
        split; [done|cbn; by rewrite Ec].
    + exists post.
      split; [change (String c t = String c (String c' t' ++ post)%string);
              by rewrite <- Hs|].
      split; [done|exact Hend].
Qed.

Lemma rstrip_keeps_head (s : string) :
  starts_with_space s = false -> starts_with_space (rstrip s) = false.
Proof.
  destruct s as [|c t]; [done|]. cbn. intros Hc.
  destruct (rstrip t); [by rewrite Hc|done].
Qed.

(** [strip] removes white space at both ends, and nothing else. *)
Lemma strip_spec (s : string) :
  exists pre post,
    s = (pre ++ strip s ++ post)%string
    /\ all_space pre = true /\ all_space post = true
    /\ starts_with_space (strip s) = false
    /\ ends_with_space (strip s) = false.
Proof.
  destruct (lstrip_spec s) as (pre & Hs & Hpre & Hhd).
  destruct (rstrip_spec (lstrip s)) as (post & Hs' & Hpost & Hend).
  exists pre, post. unfold strip. rewrite <- Hs'.
  repeat split; try done. by apply rstrip_keeps_head.
Qed.

Lemma normalize_filter_map (recipients : list string) :
  Email.normalize recipients = List.filter truthy (List.map strip recipients).
Proof.
  unfold Email.normalize. induction recipients as [|r l IH]; [done|].
  cbn [List.filter List.map]. destruct (truthy (strip r)); cbn; by rewrite IH.
Qed.

Lemma normalize_all_blank (recipients : list string) :
  Forall (fun r => strip r = ""%string) recipients ->
  Email.normalize recipients = [].
Proof.
  intros H. unfold Email.normalize.
  induction H as [|r l Hr _ IH]; [done|]. cbn [List.filter].
  by rewrite Hr.
Qed.

End Strip.

Section BlankRecipients.
Import Email.
Context {W : Type}.
Variable send_message : MessageSchema -> W -> option exn * W.
Variable random : W -> Q * W.

(** C9.  [send_email_to_many] works on the recipients stripped of the
    white space around them, without those that strip to the empty string;
    when none is left (in particular when every recipient is blank) it
    returns normally and leaves the world and the trace as they were: no
    transport call, no error.  This holds with and without
    [background_tasks]. *)
Theorem send_email_to_many_blank_recipients_is_noop
    (recipients : list string) (subject body : string)
    (background_tasks : bool) (batch_size max_attempts : Z) (s : state W) :
  normalize recipients
  = List.filter Py.truthy (List.map Py.strip recipients)
  /\ (forall r, exists pre post,
        r = (pre ++ Py.strip r ++ post)%string
        /\ Py.all_space pre = true /\ Py.all_space post = true
        /\ Py.starts_with_space (Py.strip r) = false
        /\ Py.ends_with_space (Py.strip r) = false)
  /\ (Forall (fun r => Py.strip r = ""%string) recipients ->
      normalize recipients = [])
  /\ (normalize recipients = [] ->
      send_email_to_many send_message random recipients subject body
                         background_tasks batch_size max_attempts s
      = (Ok None, s)).
Proof.
  split; [apply normalize_filter_map|]. split; [apply strip_spec|].
  split; [apply normalize_all_blank|].
  intros E. unfold send_email_to_many. by rewrite E.
Qed.

End BlankRecipients.

Lemma send_email_to_many_blank_recipients_is_noop_witness :
  Email.send_email_to_many Examples.refuses_three Examples.three_quarters
    ["  "; ""; String (ascii_of_nat 9) " "]%string
    "hello" "<p>hi</p>" false 50 3 Examples.fresh
  = (Email.Ok None, Examples.fresh).
Proof.
  apply (send_email_to_many_blank_recipients_is_noop Examples.refuses_three
           Examples.three_quarters ["  "; ""; String (ascii_of_nat 9) " "]%string
           "hello" "<p>hi</p>" false 50 3 Examples.fresh).
  reflexivity.
Defined.

(** ** Intake *)

Section Intake.
Import Domain Service.
Variable gen_random_uuid : nat -> string.

Lemma normalize_recipients_non_blank (l : list string) :
  Forall (fun r => r <> ""%string
                   /\ Py.starts_with_space r = false
                   /\ Py.ends_with_space r = false)
         (Email.normalize l).
Proof.
  rewrite normalize_filter_map. apply Forall_forall. intros r Hr.
  apply list_elem_of_In, filter_In in Hr as [Hin Ht].
  apply in_map_iff in Hin as (r0 & <- & _).
  destruct (strip_spec r0) as (pre & post & _ & _ & _ & Hhd & Hend).
  split; [by destruct (Py.strip r0)|done].
Qed.

Lemma bulk_values_blank (items : list CreateNotificationSchema) :
  Exists (fun item => Forall (fun r => Py.strip r = ""%string)
                             (req_recipients item)) items ->
  bulk_values items = None.
Proof.
  induction items as [|item rest IH]; intros H; [by apply Exists_nil in H|].
  cbn [bulk_values]. apply Exists_cons in H as [H|H].
  - by rewrite (normalize_all_blank _ H).
  - rewrite (IH H). by destruct (Email.normalize (req_recipients item)).
Qed.

Lemma bulk_values_recipients (items : list CreateNotificationSchema) values :
  bulk_values items = Some values ->
  Forall (fun v => fst v <> []) values.
Proof.
  revert values. induction items as [|item rest IH]; intros values H.
  - injection H as <-. constructor.
  - cbn [bulk_values] in H.
    destruct (Email.normalize (req_recipients item)) as [|r rs] eqn:En; [done|].
    destruct (bulk_values rest) as [vs|]; [|done]. injection H as <-.
    constructor; [done|by apply IH].
Qed.

Lemma bulk_rows_recipients (drawn : nat) (now : Z) values :
  Forall (fun v : list string * CreateNotificationSchema => fst v <> []) values ->
  Forall (fun n => recipients n <> [] /\ status n = PENDING
                   /\ attempt_count n = 0)
         (bulk_rows gen_random_uuid drawn now values).
Proof.
  intros H. revert drawn. induction H as [|[recips item] vs Hv _ IH]; intros drawn.
  - constructor.
  - cbn [bulk_rows]. constructor; [by cbn|apply IH].
Qed.

(** C8.  A submission whose recipients are all blank (none at all
    included) is refused with a bad-request error and the store is left as
    it was; this holds for the single and for the bulk intake, where one
    such item refuses the whole request.  Whenever an intake call fails the
    rows are unchanged, and every row it creates has at least one
    recipient, none of them blank, and starts PENDING with no attempt. *)
Theorem intake_rejects_empty_recipients
    (db : database) (data : CreateNotificationSchema)
    (request : CreateBulkNotificationSchema) (now : Z) :
  let single := queue_notification gen_random_uuid db data now in
  let bulk := queue_bulk_notifications gen_random_uuid db request now in
  (Forall (fun r => Py.strip r = ""%string) (req_recipients data) ->
   outcome single
   = inl (AppBadRequestException "At least one recipient is required.")
   /\ store single = db /\ scheduled single = None)
  /\ (Exists (fun item => Forall (fun r => Py.strip r = ""%string)
                                 (req_recipients item))
             (notifications request) ->
      outcome bulk
      = inl (AppBadRequestException
               "All notifications must have at least one recipient.")
      /\ store bulk = db /\ scheduled bulk = None)
  /\ (forall e, outcome single = inl e -> rows (store single) = rows db)
  /\ (forall e, outcome bulk = inl e -> rows (store bulk) = rows db)
  /\ (forall n, outcome single = inr n ->
        rows (store single) = rows db ++ [n]
        /\ recipients n <> []
        /\ Forall (fun r => r <> ""%string) (recipients n)
        /\ status n = PENDING /\ attempt_count n = 0)
  /\ (forall created, outcome bulk = inr created ->
        exists new,
          rows (store bulk) = rows db ++ new
          /\ created = ids new
          /\ Forall (fun n => recipients n <> [] /\ status n = PENDING
                              /\ attempt_count n = 0) new).
Proof.
  intros single bulk. subst single bulk.
  unfold queue_notification, queue_bulk_notifications.
  split; [|split; [|split; [|split; [|split]]]].
  - intros H. by rewrite (normalize_all_blank _ H).
  - intros H. destruct (notifications request) as [|i0 items] eqn:En;
      [by apply Exists_nil in H|].
    by rewrite (bulk_values_blank _ H).
  - intros e. destruct (Email.normalize (req_recipients data)); [done|].
    by destruct (accepts _ _).
  - intros e. destruct (notifications request) as [|i0 items]; [done|].
    destruct (bulk_values _); [|done]. by destruct (accepts_all _ _).
  - intros n. pose proof (normalize_recipients_non_blank (req_recipients data)) as Hnb.
    destruct (Email.normalize (req_recipients data)) as [|r rs] eqn:En; [done|].
    destruct (accepts _ _); [|done]. cbn. intros [= <-]. cbn.
    repeat split; try done.
    eapply Forall_impl; [exact Hnb|]. by intros ? (? & _).
  - intros created. destruct (notifications request) as [|i0 items] eqn:En.
    + cbn. intros [= <-]. exists []. rewrite app_nil_r. by repeat split.
    + destruct (bulk_values (i0 :: items)) as [values|] eqn:Ev; [|done].
      destruct (accepts_all _ _); [|done]. cbn. intros [= <-].
      eexists. split; [done|]. split; [done|].
      apply bulk_rows_recipients. by eapply bulk_values_recipients.
Qed.

End Intake.

Lemma intake_rejects_empty_recipients_witness :
  Service.outcome (Service.queue_notification Examples.uuid Examples.empty_store
                     (Examples.request [" "; ""]%string) 7)
  = inl (Service.AppBadRequestException "At least one recipient is required.")
  /\ Service.store (Service.queue_notification Examples.uuid Examples.empty_store
                      (Examples.request [" "; ""]%string) 7)
     = Examples.empty_store.
Proof.
  destruct (intake_rejects_empty_recipients Examples.uuid Examples.empty_store
              (Examples.request [" "; ""]%string)
              {| Service.notifications := [] |} 7) as (H & _).
  destruct H as (H1 & H2 & _); [repeat constructor|by split].
Defined.

(** ** The bulk status update *)

Section Aggregator.
Import Domain Service.

Lemma id_apply_values (u : Update) (n : Notification) :
  id (apply_values u n) = id n.
Proof. unfold apply_values. by destruct (upd_sent_at u). Qed.


Lemma execute_nil (u : Update) (t : table) :
  where_id_in u = [] -> execute u t = t.
Proof.
  intros E. unfold execute. rewrite E.
  induction t as [|n t IH]; [done|]. cbn [List.map]. rewrite IH.
  by rewrite bool_decide_eq_false_2 by apply not_elem_of_nil.
Qed.

Lemma apply_results_rows (results : list (string * bool)) (now : Z) (t : table) :
  apply_results results now t = List.map (after_writes results now) t.
Proof.
  unfold apply_results, status_writes.
  transitivity (execute (failure_update (failure_ids results) now)
                  (execute (success_update (success_ids results) now) t)).
  - destruct (success_ids results) as [|s0 ss] eqn:Es;
      destruct (failure_ids results) as [|f0 fs] eqn:Ef; cbn [app foldl];
      rewrite ?(execute_nil (failure_update [] now)),
              ?(execute_nil (success_update [] now)) by done; done.
  - unfold execute. rewrite List.map_map. apply List.map_ext. intros n.
    unfold after_writes. cbn [where_id_in success_update failure_update].
    done.
Qed.

End Aggregator.

Section AggregatorClaims.
Import Domain Service.

Lemma elem_of_success_ids (results : list (string * bool)) (nid : string) :
  nid ∈ success_ids results <-> (nid, true) ∈ results.
Proof.
  unfold success_ids. rewrite !list_elem_of_In, in_map_iff. split.
  - intros ([i ok] & <- & H). apply filter_In in H as [H Hok].
    cbn in Hok. by subst ok.
  - intros H. exists (nid, true). split; [done|]. by apply filter_In.
Qed.

Lemma elem_of_failure_ids (results : list (string * bool)) (nid : string) :
  nid ∈ failure_ids results <-> (nid, false) ∈ results.
Proof.
  unfold failure_ids. rewrite !list_elem_of_In, in_map_iff. split.
  - intros ([i ok] & <- & H). apply filter_In in H as [H Hok].
    cbn in Hok. by destruct ok.
  - intros H. exists (nid, false). split; [done|]. by apply filter_In.
Qed.

Lemma partition_lengths (results : list (string * bool)) :
  (length (success_ids results) + length (failure_ids results)
   = length results)%nat.
Proof.
  unfold success_ids, failure_ids. rewrite !length_map.
  induction results as [|[i ok] l IH]; [done|].
  cbn [List.filter snd]. destruct ok; cbn [negb length]; lia.
Qed.

Lemma partition_disjoint (results : list (string * bool)) (nid : string) :
  NoDup (List.map fst results) ->
  nid ∈ success_ids results -> nid ∉ failure_ids results.
Proof.
  rewrite elem_of_success_ids, elem_of_failure_ids.
  induction results as [|[i ok] l IH]; intros Hnd Ht Hf.
  - by apply elem_of_nil in Ht.
  - cbn in Hnd. apply NoDup_cons in Hnd as [Hi Hnd].
    apply elem_of_cons in Ht as [Ht|Ht]; apply elem_of_cons in Hf as [Hf|Hf].
    + congruence.
    + simplify_eq. apply Hi.
      apply list_elem_of_In, in_map_iff. eexists (_, false).
      split; [done|]. by apply list_elem_of_In.
    + simplify_eq. apply Hi.
      apply list_elem_of_In, in_map_iff. eexists (_, true).
      split; [done|]. by apply list_elem_of_In.
    + by apply IH.
Qed.



(** C4, with the text the code writes.  The results are split into the
    identifiers that succeeded and those that failed; one [UPDATE] is
    issued for each of the two lists that is not empty, and no other.  The
    one for the successes sets SENT, the sent time and the last-attempt
    time to now, the attempt count one higher and no last error; the one
    for the failures sets FAILED, the last-attempt time to now, the attempt
    count one higher and the last error to
    "One or more recipient sends failed". *)
Theorem bulk_status_update_writes (results : list (string * bool)) (now : Z) :
  let ok := success_ids results in
  let ko := failure_ids results in
  (forall nid, nid ∈ ok <-> (nid, true) ∈ results)
  /\ (forall nid, nid ∈ ko <-> (nid, false) ∈ results)
  /\ (length ok + length ko = length results)%nat
  /\ status_writes results now
     = (if decide (ok = []) then [] else [success_update ok now])
       ++ (if decide (ko = []) then [] else [failure_update ko now])
  /\ where_id_in (success_update ok now) = ok
  /\ where_id_in (failure_update ko now) = ko
  /\ (forall n, let n' := apply_values (success_update ok now) n in
        status n' = SENT /\ sent_at n' = Some now
        /\ last_attempt_at n' = Some now
        /\ attempt_count n' = attempt_count n + 1
        /\ last_error n' = None)
  /\ (forall n, let n' := apply_values (failure_update ko now) n in
        status n' = FAILED /\ sent_at n' = sent_at n
        /\ last_attempt_at n' = Some now
        /\ attempt_count n' = attempt_count n + 1
        /\ last_error n' = Some "One or more recipient sends failed"%string)
  /\ (forall t, apply_results results now t
                = List.map (after_writes results now) t).
Proof.
  intros ok ko.
  split; [apply elem_of_success_ids|]. split; [apply elem_of_failure_ids|].
  split; [apply partition_lengths|]. split.
  - unfold status_writes. fold ok ko. by destruct ok, ko.
  - repeat split; try done. intros t. apply apply_results_rows.
Qed.


End AggregatorClaims.

(** C4 as stated fails on the text of the summary: the failure write
    stores it with a capital O. *)
Lemma failure_summary_is_not_lower_case :
  Service.status_writes [("n1"%string, false)] 9
  = [Service.failure_update ["n1"%string] 9]
  /\ Service.upd_last_error (Service.failure_update ["n1"%string] 9)
     = Some "One or more recipient sends failed"%string
  /\ Service.upd_last_error (Service.failure_update ["n1"%string] 9)
     <> Some "one or more recipient sends failed"%string.
Proof. split; [reflexivity|]. split; [reflexivity|]. intros H. discriminate H. Qed.

(** ** Claiming a batch *)

Section Claim.
Import Domain Worker.

Global Instance claim_order_total : Total claim_order.
Proof. intros a b. unfold claim_order. lia. Qed.

Global Instance claim_order_trans : Transitive claim_order.
Proof. intros a b c. unfold claim_order. lia. Qed.

Lemma filter_sublist {A} (f : A -> bool) (l : list A) :
  List.filter f l `sublist_of` l.
Proof.
  induction l as [|x l IH]; [constructor|]. cbn.
  destruct (f x); by constructor.
Qed.

Lemma elem_of_bool_filter {A} (f : A -> bool) (l : list A) (x : A) :
  x ∈ List.filter f l <-> x ∈ l /\ f x = true.
Proof. rewrite !list_elem_of_In. apply filter_In. Qed.

(** A key identifies its row. *)
Lemma primary_key_inj (t : table) (a b : Notification) :
  primary_key t -> a ∈ t -> b ∈ t -> id a = id b -> a = b.
Proof.
  unfold primary_key, ids. induction t as [|n t IH]; intros Hnd Ha Hb E.
  - by apply elem_of_nil in Ha.
  - cbn in Hnd. apply NoDup_cons in Hnd as [Hn Hnd].
    apply elem_of_cons in Ha as [->|Ha]; apply elem_of_cons in Hb as [->|Hb].
    + done.
    + exfalso. apply Hn. rewrite E. apply list_elem_of_In, in_map.
      by apply list_elem_of_In.
    + exfalso. apply Hn. rewrite <- E. apply list_elem_of_In, in_map.
      by apply list_elem_of_In.
    + by apply IH.
Qed.

(** The rows the subquery picks, before their identifiers are taken. *)
Lemma subquery_ids (limit now : Z) (locked : list string) (t : table) :
  subquery limit now locked t
  = ids (take (Z.to_nat limit)
              (merge_sort claim_order (List.filter (claimable now locked) t))).
Proof. reflexivity. Qed.

Lemma picked_in_table (limit now : Z) (locked : list string) (t : table) n :
  n ∈ take (Z.to_nat limit)
           (merge_sort claim_order (List.filter (claimable now locked) t)) ->
  n ∈ t /\ claimable now locked n = true.
Proof.
  intros H. eapply elem_of_sublist in H; [|apply sublist_take].
  rewrite merge_sort_Permutation in H. by apply elem_of_bool_filter in H.
Qed.

(** With a primary key, the outer select returns exactly the rows the
    subquery picked, in some order. *)
Lemma select_batch_picked (limit now : Z) (locked : list string) (t : table) :
  primary_key t ->
  select_batch limit now locked t
  ≡ₚ take (Z.to_nat limit)
          (merge_sort claim_order (List.filter (claimable now locked) t)).
Proof.
  intros Hpk. assert (Hnd : NoDup t) by (by apply (NoDup_fmap_1 id)).
  apply NoDup_Permutation.
  - unfold select_batch. eapply sublist_NoDup; [exact Hnd|apply filter_sublist].
  - eapply sublist_NoDup; [|apply sublist_take].
    rewrite merge_sort_Permutation.
    eapply sublist_NoDup; [exact Hnd|apply filter_sublist].
  - intros n. unfold select_batch. rewrite elem_of_bool_filter, subquery_ids.
    split.
    + intros [Hn Hid]. apply bool_decide_eq_true in Hid.
      apply list_elem_of_In, in_map_iff in Hid as (m & E & Hm).
      apply list_elem_of_In in Hm.
      destruct (picked_in_table _ _ _ _ _ Hm) as [Hmt _].
      by rewrite <- (primary_key_inj t m n Hpk Hmt Hn E).
    + intros Hn. destruct (picked_in_table _ _ _ _ _ Hn) as [Hnt _].
      split; [done|]. apply bool_decide_eq_true.
      apply list_elem_of_In, in_map. by apply list_elem_of_In.
Qed.

End Claim.

Section ClaimClaims.
Import Domain Worker.

Lemma due_spec (now : Z) (n : Notification) :
  due now n = true ->
  status n = PENDING /\ exists at_, scheduled_at n = Some at_ /\ at_ <= now.
Proof.
  unfold due. intros H. apply andb_true_iff in H as [Hs Hat].
  apply bool_decide_eq_true in Hs. split; [done|].
  destruct (scheduled_at n) as [at_|]; [|done].
  exists at_. split; [done|]. by apply Z.leb_le.
Qed.



End ClaimClaims.


(** When the table is scanned in creation order, the batch is in creation
    order too. *)
Example claim_two_of_three :
  Worker.select_batch 2 10 []
    [Examples.job "j1" 5 1; Examples.job "j2" 1 2; Examples.job "j3" 5 3]
  = [Examples.job "j1" 5 1; Examples.job "j3" 5 3].
Proof. vm_compute. reflexivity. Qed.


(** ** A processing pass *)

Section Session.
Import Domain Worker.

(** A loop that alters one object per element touches each object whose
    key occurs once exactly once, and no other. *)
Lemma foldl_alter_other {X} (key : X -> string)
    (f : X -> Notification -> Notification) (xs : list X)
    (h : gmap string Notification) (k : string) :
  k ∉ List.map key xs ->
  foldl (fun h x => alter (f x) (key x) h) h xs !! k = h !! k.
Proof.
  revert h. induction xs as [|x xs IH]; intros h Hk; [done|].
  cbn [foldl]. cbn in Hk. apply not_elem_of_cons in Hk as [Hx Hk].
  rewrite IH by done. by rewrite lookup_alter_ne.
Qed.

Lemma foldl_alter_once {X} (key : X -> string)
    (f : X -> Notification -> Notification) (xs : list X)
    (h : gmap string Notification) (x : X) :
  NoDup (List.map key xs) -> x ∈ xs ->
  foldl (fun h x => alter (f x) (key x) h) h xs !! key x
  = f x <$> h !! key x.
Proof.
  revert h. induction xs as [|y xs IH]; intros h Hnd Hx.
  - by apply elem_of_nil in Hx.
  - cbn [foldl]. cbn in Hnd. apply NoDup_cons in Hnd as [Hy Hnd].
    apply elem_of_cons in Hx as [->|Hx].
    + rewrite foldl_alter_other by done. apply lookup_alter_eq.
    + rewrite IH by done. rewrite lookup_alter_ne; [done|].
      intros E. apply Hy. rewrite E. apply list_elem_of_In, in_map.
      by apply list_elem_of_In.
Qed.

Lemma record_results_alter (now : Z) (results : list (string * bool * option string))
    (h : gmap string Notification) :
  foldl (record_result now) h results
  = foldl (fun h res => alter (settle now (snd (fst res)) (snd res))
                              (fst (fst res)) h) h results.
Proof.
  revert h. induction results as [|[[ref ok] err] rs IH]; intros h; [done|].
  cbn [foldl]. by rewrite IH.
Qed.

Lemma load_lookup (batch : list Notification) (n : Notification) :
  NoDup (ids batch) -> n ∈ batch -> load batch !! id n = Some n.
Proof.
  intros Hnd Hn. unfold load. apply elem_of_list_to_map_1.
  - replace ((List.map (fun n => (id n, n)) batch).*1) with (ids batch); [done|].
    unfold ids. clear. induction batch as [|m l IH]; [done|]. cbn. by rewrite <- IH.
  - apply list_elem_of_In, in_map_iff. exists n. split; [done|].
    by apply list_elem_of_In.
Qed.

Lemma load_lookup_None (batch : list Notification) (k : string) :
  k ∉ ids batch -> load batch !! k = None.
Proof.
  intros Hk. unfold load. apply not_elem_of_list_to_map_1.
  replace ((List.map (fun n => (id n, n)) batch).*1) with (ids batch); [done|].
  unfold ids. clear. induction batch as [|m l IH]; [done|]. cbn. by rewrite <- IH.
Qed.

Lemma id_settle now ok err n : id (settle now ok err n) = id n.
Proof. unfold settle. by destruct ok. Qed.

Lemma settle_counts now ok err n :
  attempt_count (settle now ok err n) = attempt_count n + 1
  /\ status (settle now ok err n) = (if ok then SENT else FAILED).
Proof. unfold settle. by destruct ok. Qed.

End Session.

Section Pass.
Import Domain Worker.
Context {W : Type}.
Variable send_message : Email.MessageSchema -> W -> option Email.exn * W.
Variable random : W -> Q * W.

(** A job's send never raises: its failure becomes a result. *)
Lemma _send_one_returns (objects : gmap string Notification) (ref : string)
    (s : Email.state W) :
  exists ok err s',
    _send_one send_message random objects ref s = (Email.Ok (ref, ok, err), s').
Proof.
  unfold _send_one. destruct (objects !! ref) as [n|]; [|by eexists _, _, _].
  unfold Email.try_except, Email.bind.
  destruct (Email.gather _ s) as [[l|e] s1]; by eexists _, _, _.
Qed.

(** [gather] over tasks that all return gives all their results, in
    order. *)
Lemma gather_returns {X A} (f : X -> Email.M W A) (Q : X -> A -> Prop)
    (xs : list X) :
  (forall x s, exists a s', f x s = (Email.Ok a, s') /\ Q x a) ->
  forall s, exists l s',
    Email.gather (List.map f xs) s = (Email.Ok l, s') /\ Forall2 Q xs l.
Proof.
  intros Hf. induction xs as [|x xs IH]; intros s.
  - exists [], s. split; [done|constructor].
  - cbn [List.map Email.gather].
    destruct (Hf x s) as (a & s1 & -> & Ha).
    destruct (IH s1) as (l & s2 & -> & Hl).
    exists (a :: l), s2. split; [done|by constructor].
Qed.

Lemma process_batch_returns (objects : gmap string Notification) (t : table)
    (batch : list string) (now : Z) (s : Email.state W) :
  exists results s',
    List.map (fun res => fst (fst res)) results = batch
    /\ process_batch send_message random objects t batch now s
       = (Email.Ok (foldl (record_result now) objects results,
                    commit (foldl (record_result now) objects results) t), s').
Proof.
  destruct (gather_returns (_send_one send_message random objects)
              (fun ref res => fst (fst res) = ref) batch) with (s := s)
    as (results & s' & Hg & Hrefs).
  { intros ref s0. destruct (_send_one_returns objects ref s0)
      as (ok & err & s1 & ->). by eexists _, _. }
  exists results, s'. split.
  - clear Hg. induction Hrefs as [|ref res refs rs E _ IH]; [done|].
    cbn. by rewrite E, IH.
  - unfold process_batch, Email.bind. by rewrite Hg.
Qed.

Lemma list_lookup_map {A B} (f : A -> B) (l : list A) (i : nat) :
  List.map f l !! i = f <$> l !! i.
Proof. revert i. induction l as [|x l IH]; intros [|i]; cbn; auto. Qed.

Lemma ids_sublist (batch t : list Notification) :
  batch `sublist_of` t -> ids batch `sublist_of` ids t.
Proof. intros H. unfold ids. by apply (fmap_sublist id). Qed.

(** C3.  In one turn of the worker, every job of the claimed batch ends
    with its attempt count exactly one higher and with the status SENT or
    FAILED, whatever the transport did; every other row is left as it
    was.  The turn always returns. *)
Theorem processing_pass_counts_one_attempt
    (limit now now' : Z) (locked : list string) (t : table)
    (s : Email.state W) :
  primary_key t ->
  let batch := select_batch limit now locked t in
  let out := main_loop_turn send_message random limit now now' locked t s in
  exists t',
    fst out = Email.Ok t'
    /\ length t' = length t
    /\ forall (i : nat) (n : Notification),
         t !! i = Some n ->
         exists n',
           t' !! i = Some n' /\ id n' = id n
           /\ (n ∈ batch ->
               attempt_count n' = attempt_count n + 1
               /\ (status n' = SENT \/ status n' = FAILED))
           /\ (n ∉ batch -> n' = n).
Proof.
  intros Hpk batch out. subst out. unfold main_loop_turn.
  fold batch. unfold Email.try_except.
  assert (Hsub : batch `sublist_of` t) by apply filter_sublist.
  assert (Hnd : NoDup (ids batch))
    by (eapply sublist_NoDup; [exact Hpk|by apply ids_sublist]).
  destruct batch as [|b0 bs] eqn:Eb.
  { exists t. unfold Email.bind, Email.sleep, Email.emit, Email.ret. cbn.
    split; [done|]. split; [done|]. intros i n Hi. exists n.
    split; [done|]. split; [done|]. split; [|done].
    intros Hn. by apply elem_of_nil in Hn. }
  rewrite <- Eb in *. clear Eb b0 bs.
  set (h1 := mark_processing (load batch) (ids batch)).
  destruct (process_batch_returns h1 (commit h1 t) (ids batch) now' s)
    as (results & s' & Hrefs & Hpb).
  unfold Email.bind. rewrite Hpb. cbn [fst snd Email.ret].
  set (h2 := foldl (record_result now') h1 results).
  exists (commit h2 (commit h1 t)). split; [done|].
  split; [unfold commit; by rewrite !length_map|].
  intros i n Hi. unfold commit.
  rewrite !list_lookup_map, Hi. cbn [fmap option_fmap option_map].
  eexists. split; [reflexivity|].
  assert (Hnt : n ∈ t) by (by eapply list_elem_of_lookup_2).
  assert (Hin : n ∈ batch <-> id n ∈ ids batch).
  { split.
    - intros H. apply list_elem_of_In, in_map. by apply list_elem_of_In.
    - intros H. apply list_elem_of_In, in_map_iff in H as (m & E & Hm).
      apply list_elem_of_In in Hm.
      assert (m ∈ t) by (by eapply elem_of_sublist).
      by rewrite <- (primary_key_inj t m n Hpk). }
  destruct (decide (id n ∈ ids batch)) as [Hid|Hid].
  - assert (Hn : n ∈ batch) by (by apply Hin).
    assert (H1 : h1 !! id n = Some (set_status PROCESSING n)).
    { subst h1. unfold mark_processing.
      pose proof (foldl_alter_once (fun ref : string => ref)
                    (fun _ => set_status PROCESSING) (ids batch)
                    (load batch) (id n)) as H.
      cbn beta in H. rewrite H.
      - by rewrite load_lookup.
      - by rewrite List.map_id.
      - done. }
    rewrite H1. cbn [from_option]. unfold Datatypes.id.
    change (id (set_status PROCESSING n)) with (id n).
    apply list_elem_of_In in Hid as Hres. rewrite <- Hrefs in Hres.
    apply in_map_iff in Hres as (res & Eres & Hres).
    apply list_elem_of_In in Hres.
    assert (H2 : h2 !! id n
                 = Some (settle now' (snd (fst res)) (snd res)
                                (set_status PROCESSING n))).
    { subst h2. rewrite record_results_alter, <- Eres.
      rewrite (foldl_alter_once (fun res => fst (fst res))
                 (fun res => settle now' (snd (fst res)) (snd res))
                 results h1 res); [|by rewrite Hrefs|done].
      by rewrite Eres, H1. }
    rewrite H2. cbn [from_option]. unfold Datatypes.id.
    rewrite id_settle. split; [done|].
    split; [|done]. intros _.
    destruct (settle_counts now' (snd (fst res)) (snd res)
                (set_status PROCESSING n)) as [-> ->].
    split; [done|]. destruct (snd (fst res)); [by left|by right].
  - assert (H1 : h1 !! id n = None).
    { subst h1. unfold mark_processing.
      pose proof (foldl_alter_other (fun ref : string => ref)
                    (fun _ => set_status PROCESSING) (ids batch)
                    (load batch) (id n)) as H.
      cbn beta in H. rewrite H.
      - by apply load_lookup_None.
      - by rewrite List.map_id. }
    rewrite H1. cbn [from_option].
    assert (H2 : h2 !! id n = None).
    { subst h2. rewrite record_results_alter.
      rewrite foldl_alter_other; [done|]. by rewrite Hrefs. }
    rewrite H2. cbn [from_option]. split; [done|]. split; [|done].
    intros Hn. by apply Hin in Hn.
Qed.

End Pass.

Lemma processing_pass_counts_one_attempt_witness :
  Domain.primary_key [Examples.job "j1" 5 1; Examples.job "j2" 1 2;
                      Examples.job "j3" 5 3]
  /\ exists t',
       fst (Worker.main_loop_turn Examples.refuses_three Examples.three_quarters
              2 10 11 []
              [Examples.job "j1" 5 1; Examples.job "j2" 1 2; Examples.job "j3" 5 3]
              Examples.fresh) = Email.Ok t'
       /\ length t' = 3%nat.
Proof.
  assert (H : Domain.primary_key [Examples.job "j1" 5 1; Examples.job "j2" 1 2;
                                  Examples.job "j3" 5 3])
    by (apply (bool_decide_unpack _); vm_compute; reflexivity).
  split; [exact H|].
  destruct (processing_pass_counts_one_attempt Examples.refuses_three
              Examples.three_quarters 2 10 11 []
              [Examples.job "j1" 5 1; Examples.job "j2" 1 2; Examples.job "j3" 5 3]
              Examples.fresh H) as (t' & H1 & H2 & _).
  exists t'. split; [exact H1|exact H2].
Defined.

(** One turn on the three jobs, with a transport that refuses the first
    three messages: the first job of priority 5 uses up its retries and
    fails, the other one is sent, the job of priority 1 is not touched. *)
Example pass_with_a_failing_job :
  match fst (Worker.main_loop_turn Examples.refuses_three
               Examples.three_quarters 2 10 11 []
               [Examples.job "j1" 5 1; Examples.job "j2" 1 2;
                Examples.job "j3" 5 3] Examples.fresh) with
  | Email.Ok t' =>
      List.map (fun n => (Domain.status n, Domain.attempt_count n)) t'
  | Email.Raise _ => []
  end
  = [(Domain.FAILED, 1); (Domain.PENDING, 0); (Domain.SENT, 1)].
Proof. vm_compute. reflexivity. Qed.

(** * Further properties of the delivery code *)

(** ** The retrier: sleeps and calls *)

Section RetrierSleeps.
Import Email.
Context {W A : Type}.
Variable random : W -> Q * W.
Variable op : W -> result A * W.
Variables (attempts : Z) (base_delay max_delay : Q).

Local Abbreviation loop' :=
  (retry_loop random (counted op) attempts base_delay max_delay).


End RetrierSleeps.

Section RetrierExtras.
Import Email.
Context {W A : Type}.
Variable random : W -> Q * W.


(** X2.  With a non-negative base delay and the same draw, the delay
    before a later retry is never shorter than before an earlier one, and
    it is at least half the capped backoff. *)
Theorem sleep_for_grows_with_the_retry_index
    (base_delay max_delay : Q) (i j : Z) (r : Q) :
  (0 <= base_delay)%Q -> (0 <= r)%Q -> 0 <= i <= j ->
  (sleep_for base_delay max_delay i r <= sleep_for base_delay max_delay j r)%Q
  /\ ((0 <= max_delay)%Q ->
      ((1 # 2) * Qmin max_delay (base_delay * inject_Z (2 ^ i))
       <= sleep_for base_delay max_delay i r)%Q).
Proof.
  intros Hb Hr Hij. unfold sleep_for. split.
  - apply Qmult_le_compat_r; [|lra].
    apply Q.min_le_compat_l.
    assert (inject_Z (2 ^ i) <= inject_Z (2 ^ j))%Q
      by (rewrite <- Zle_Qle; apply Z.pow_le_mono_r; lia).
    nra.
  - intros Hm.
    set (c := Qmin max_delay (base_delay * inject_Z (2 ^ i))).
    assert (0 <= c)%Q.
    { subst c. apply Q.min_glb; [done|]. apply Qmult_le_0_compat; [done|].
      change 0%Q with (inject_Z 0). rewrite <- Zle_Qle. apply Z.pow_nonneg. lia. }
    nra.
Qed.

End RetrierExtras.

(** ** Sending one message with retries *)

Section SendRuns.
Import Email.
Context {W : Type}.
Variable send_message : MessageSchema -> W -> option exn * W.
Variable random : W -> Q * W.

Lemma sends_app (tr1 tr2 : list event) :
  sends (tr1 ++ tr2) = sends tr1 ++ sends tr2.
Proof. apply omap_app. Qed.

Lemma fm_send_message_eq (msg : MessageSchema) (s : state W) :
  fm_send_message send_message msg s
  = (match fst (send_message msg (world s)) with
     | None => Ok tt
     | Some e => Raise e
     end,
     {| world := snd (send_message msg (world s));
        trace := trace s ++ [EvSend msg] |}).
Proof.
  unfold fm_send_message. by destruct (send_message msg (world s)) as [[e|] w].
Qed.

(** The retried send of one message: what it adds to the trace, how many
    transport calls it makes at most, and what it gives when the transport
    accepts every message. *)
Lemma retry_loop_send_full (msg : MessageSchema) (attempts : Z)
    (base_delay max_delay : Q) (l : list Z) last s :
  let out := retry_loop random (fm_send_message send_message msg) attempts
                        base_delay max_delay l last s in
  exists tr,
    trace (snd out) = trace s ++ tr
    /\ Forall (fun ev => ev = EvSend msg \/ exists d, ev = EvSleep d) tr
    /\ (length (sends tr) <= length l)%nat
    /\ (l <> [] -> exists tr', tr = EvSend msg :: tr')
    /\ (transport_never_fails send_message -> l <> [] ->
        tr = [EvSend msg] /\ fst out = Ok tt).
Proof.
  revert last s. induction l as [|i l IH]; intros last s out; subst out.
  - exists []. rewrite app_nil_r. split; [by destruct last|].
    split; [constructor|]. split; [done|]. split; done.
  - cbn [retry_loop]. unfold try_except. rewrite fm_send_message_eq.
    destruct (send_message msg (world s)) as [[e|] w1] eqn:Es; cbn [fst snd].
    + destruct (i =? attempts - 1).
      * exists [EvSend msg]. cbn [raise_last raise snd trace fst].
        split; [done|]. split; [by repeat constructor; left|].
        split; [cbn; lia|]. split; [by eexists|].
        intros Hnever _. specialize (Hnever msg (world s)).
        by rewrite Es in Hnever.
      * unfold bind at 1 3, draw. cbn [world trace].
        destruct (random w1) as [r w2].
        unfold bind at 1 2, sleep, emit. cbn [world trace].
        destruct (IH (Some e)
                    {| world := w2;
                       trace := (trace s ++ [EvSend msg]) ++
                                [EvSleep (sleep_for base_delay max_delay i r)] |})
          as (tr & Htr & Hall & Hlen & _).
        exists (EvSend msg :: EvSleep (sleep_for base_delay max_delay i r) :: tr).
        rewrite Htr. cbn [trace]. rewrite <- !app_assoc. split; [done|].
        split; [constructor; [by left|];
                constructor; [right; by eexists|done]|].
        split; [change (sends (EvSend msg :: EvSleep (sleep_for base_delay max_delay i r) :: tr))
                  with (msg :: sends tr); cbn [length]; lia|].
        split; [by eexists|].
        intros Hnever _. specialize (Hnever msg (world s)).
        by rewrite Es in Hnever.
    + exists [EvSend msg]. cbn [snd trace fst].
      split; [done|]. split; [by repeat constructor; left|].
      split; [cbn; lia|]. split; [by eexists|]. intros _ _. by split.
Qed.

Lemma retry_send_full (msg : MessageSchema) (attempts : Z) s :
  1 <= attempts ->
  let out := _retry random (fm_send_message send_message msg) attempts
                    default_base_delay default_max_delay s in
  exists tr,
    trace (snd out) = trace s ++ tr
    /\ Forall (fun ev => ev = EvSend msg \/ exists d, ev = EvSleep d) tr
    /\ (1 <= Z.of_nat (length (sends tr)) <= attempts)
    /\ (transport_never_fails send_message ->
        tr = [EvSend msg] /\ fst out = Ok tt).
Proof.
  intros Hn out. subst out. unfold _retry.
  destruct (retry_loop_send_full msg attempts default_base_delay
              default_max_delay (Py.range attempts) None s)
    as (tr & Htr & Hall & Hlen & Hhead & Hnever).
  assert (Hne : Py.range attempts <> []).
  { unfold Py.range. destruct (Z.to_nat attempts) eqn:E; [lia|done]. }
  exists tr. split; [done|]. split; [done|]. split.
  - destruct (Hhead Hne) as [tr' ->].
    change (sends (EvSend msg :: tr')) with (msg :: sends tr') in *.
    unfold Py.range in Hlen. rewrite length_map, length_seq in Hlen.
    cbn [length] in *. lia.
  - intros H. by apply Hnever.
Qed.


End SendRuns.



Lemma sleep_for_grows_with_the_retry_index_witness :
  (0 <= 1 # 2)%Q /\ (0 <= 3 # 4)%Q /\ 0 <= 1 <= 3
  /\ (Email.sleep_for (1 # 2) 4 1 (3 # 4) <= Email.sleep_for (1 # 2) 4 3 (3 # 4))%Q.
Proof.
  split; [done|]. split; [done|]. split; [lia|].
  destruct (sleep_for_grows_with_the_retry_index (1 # 2) 4 1 3 (3 # 4)
              ltac:(done) ltac:(done) ltac:(lia)) as [H _].
  exact H.
Defined.

(** ** Sending to many recipients: the whole run *)

Section SendToManyRuns.
Import Email.
Context {W : Type}.
Variable send_message : MessageSchema -> W -> option exn * W.
Variable random : W -> Q * W.

Local Abbreviation message_to subject body batch :=
  {| msg_subject := subject; msg_recipients := batch; msg_body := body |}.

Lemma gather_all_ok {X A} (f : X -> M W A) (xs : list X) :
  (forall x s, exists a, fst (f x s) = Ok a) ->
  forall s, exists l, fst (gather (List.map f xs) s) = Ok l.
Proof.
  intros Hf. induction xs as [|x xs IH]; intros s; [by exists []|].
  cbn [List.map gather]. destruct (Hf x s) as [a Ha].
  destruct (f x s) as [r s1]. cbn in Ha. subst r.
  destruct (IH s1) as [l Hl].
  destruct (gather (List.map f xs) s1) as [rs s2]. cbn in Hl. subst rs.
  by eexists.
Qed.

Lemma _send_batch_ok (subject body : string) (max_attempts : Z)
    (batch : list string) s :
  1 <= max_attempts -> transport_never_fails send_message ->
  fst (_send_batch send_message random subject body max_attempts batch s)
  = Ok tt.
Proof.
  intros Hn Hnever. unfold _send_batch, _send_one.
  destruct (retry_send_full send_message random
              (message_to subject body batch) max_attempts s Hn)
    as (tr & _ & _ & _ & H). by destruct (H Hnever).
Qed.

(** The awaited run, for any recipients: the batches, and one segment of
    the trace per batch. *)
Lemma send_email_to_many_run (recipients : list string) (subject body : string)
    (batch_size max_attempts : Z) (s : state W) :
  1 <= batch_size -> 1 <= max_attempts ->
  let out := send_email_to_many send_message random recipients subject body
                                false batch_size max_attempts s in
  exists batches trs,
    batches_of (normalize recipients) batch_size = Some batches
    /\ trace (snd out) = trace s ++ concat trs
    /\ Forall2 (fun batch tr =>
                  send_segment send_message (message_to subject body batch) tr)
               batches trs
    /\ (transport_never_fails send_message -> fst out = Ok None).
Proof.
  intros Hb Hm out.
  destruct (batches_of_shape (normalize recipients) batch_size Hb)
    as (batches & Hbs & Hlen & _ & _).
  destruct (gather_trace (_send_batch send_message random subject body max_attempts)
              (fun batch tr =>
                 send_segment send_message (message_to subject body batch) tr)
              batches
              (fun batch s => _send_batch_segment send_message random subject
                                body max_attempts batch s Hm) s)
    as (trs & Htr & Hseg).
  subst out. unfold send_email_to_many.
  destruct (normalize recipients) as [|r0 rs] eqn:En.
  - assert (batches = []) as ->.
    { destruct batches; [done|]. cbn [length] in Hlen.
      assert ((0 + batch_size - 1) / batch_size = 0)
        by (apply Z.div_small; lia).
      cbn in Hlen. lia. }
    exists [], []. cbn [concat snd fst ret]. rewrite app_nil_r.
    split; [done|]. split; [done|]. split; [constructor|done].
  - rewrite Hbs. exists batches, trs. split; [done|].
    unfold bind, ret.
    destruct (gather _ s) as [[rs'|e] s1] eqn:Eg; cbn [fst snd] in *.
    + split; [exact Htr|]. split; [exact Hseg|]. done.
    + split; [exact Htr|]. split; [exact Hseg|]. intros Hnever.
      destruct (gather_all_ok
                  (_send_batch send_message random subject body max_attempts)
                  batches) with (s := s) as [l Hl].
      { intros x s0. exists tt. by apply _send_batch_ok. }
      rewrite Eg in Hl. done.
Qed.

Lemma segments_sends (subject body : string) (batches : list (list string))
    (trs : list (list event)) :
  Forall2 (fun batch tr =>
             send_segment send_message (message_to subject body batch) tr)
          batches trs ->
  Forall (fun m => exists batch,
                     batch ∈ batches /\ m = message_to subject body batch)
         (sends (concat trs))
  /\ (transport_never_fails send_message ->
      sends (concat trs) = List.map (fun batch => message_to subject body batch) batches
      /\ sleeps (concat trs) = []).
Proof.
  induction 1 as [|batch tr batches trs (tr' & -> & Hall & Hnever) _ [IH1 IH2]].
  - split; [constructor|done].
  - cbn [concat]. rewrite sends_app. split.
    + apply Forall_app. split.
      * change (sends (EvSend (message_to subject body batch) :: tr'))
          with (message_to subject body batch :: sends tr').
        constructor; [exists batch; split; [left|done]|].
        clear -Hall. induction Hall as [|ev l [->|[d ->]] _ IH]; cbn.
        -- constructor.
        -- constructor; [exists batch; split; [left|done]|exact IH].
        -- exact IH.
      * eapply Forall_impl; [exact IH1|].
        intros m (b & Hb & ->). exists b. split; [by right|done].
    + intros Hn. rewrite (Hnever Hn). destruct (IH2 Hn) as [E1 E2].
      rewrite sleeps_app, E1, E2. done.
Qed.

End SendToManyRuns.

Section SendToManyExtras.
Import Email.
Context {W : Type}.
Variable send_message : MessageSchema -> W -> option exn * W.
Variable random : W -> Q * W.

(** X4.  A batch size of zero or less never sends anything when there are
    recipients: zero raises the [ValueError] of [range] before any
    transport call, with or without [background_tasks]; a negative size
    yields no batch at all, so the call returns normally (and the scheduled
    task does nothing) although no recipient was mailed. *)
Theorem send_email_to_many_non_positive_batch_size
    (recipients : list string) (subject body : string)
    (background_tasks : bool) (batch_size max_attempts : Z) (s : state W) :
  normalize recipients <> [] ->
  batch_size <= 0 ->
  (batch_size = 0 ->
   send_email_to_many send_message random recipients subject body
                      background_tasks batch_size max_attempts s
   = (Raise (ValueError "range() arg 3 must not be zero"), s))
  /\ (batch_size < 0 ->
      send_email_to_many send_message random recipients subject body
                         false batch_size max_attempts s
      = (Ok None, s)
      /\ exists task,
           send_email_to_many send_message random recipients subject body
                              true batch_size max_attempts s
           = (Ok (Some task), s)
           /\ forall s', task s' = (Ok tt, s')).
Proof.
  intros Hne Hb. unfold send_email_to_many.
  destruct (normalize recipients) as [|r0 rs] eqn:En; [done|].
  unfold batches_of, Py.range3. split.
  - intros ->. reflexivity.
  - intros Hneg.
    destruct (Z.eqb_spec batch_size 0) as [|_]; [lia|].
    destruct (Z.ltb_spec 0 batch_size) as [|_]; [lia|].
    replace (Z.to_nat (0 - Z.of_nat (length (r0 :: rs)))) with 0%nat by lia.
    cbn [Py.range_down List.map gather]. split; [reflexivity|].
    eexists. split; [reflexivity|]. reflexivity.
Qed.

Lemma send_email_to_many_messages_shape
    (recipients : list string) (subject body : string)
    (batch_size max_attempts : Z) (s : state W) :
  1 <= batch_size -> 1 <= max_attempts ->
  let out := send_email_to_many send_message random recipients subject body
                                false batch_size max_attempts s in
  exists tr,
    trace (snd out) = trace s ++ tr
    /\ Forall (fun m =>
                 msg_subject m = subject /\ msg_body m = body
                 /\ msg_recipients m <> []
                 /\ Z.of_nat (length (msg_recipients m)) <= batch_size
                 /\ Forall (fun r => r <> ""%string
                                     /\ exists r0, r0 ∈ recipients
                                                   /\ r = Py.strip r0)
                           (msg_recipients m))
              (sends tr).
Proof.
  intros Hb Hm out.
  destruct (send_email_to_many_run send_message random recipients subject body
              batch_size max_attempts s Hb Hm)
    as (batches & trs & Hbs & Htr & Hseg & _).
  exists (concat trs). split; [exact Htr|].
  destruct (batches_of_shape (normalize recipients) batch_size Hb)
    as (batches' & Hbs' & _ & _ & Hshape).
  rewrite Hbs in Hbs'. injection Hbs' as <-.
  destruct (segments_sends send_message subject body batches trs Hseg)
    as [Hsends _].
  eapply Forall_impl; [exact Hsends|].
  intros m (batch & Hin & ->). cbn [msg_subject msg_body msg_recipients].
  apply list_elem_of_lookup in Hin as [k Hk].
  destruct (Hshape k batch Hk) as [Hbatch Hlen].
  pose proof (Z.mod_pos_bound (Z.of_nat (length (normalize recipients)))
                batch_size ltac:(lia)) as Hmod.
  split; [done|]. split; [done|]. split; [|split].
  - intros E. rewrite E in Hlen. cbn [length] in Hlen.
    destruct (decide _); lia.
  - destruct (decide _); lia.
  - apply Forall_forall. intros r Hr. rewrite Hbatch in Hr.
    apply elem_of_take in Hr as (i & Hi & _).
    apply list_elem_of_lookup_2 in Hi.
    assert (Hrn : r ∈ normalize recipients).
    { eapply elem_of_sublist; [exact Hi|apply sublist_drop]. }
    rewrite normalize_filter_map in Hrn.
    apply elem_of_bool_filter in Hrn as [Hmap Ht].
    apply list_elem_of_In, in_map_iff in Hmap as (r0 & <- & Hr0).
    split; [by destruct (Py.strip r0)|].
    exists r0. split; [by apply list_elem_of_In|done].
Qed.

(** X5.  Whatever the recipients and the transport, for [batch_size >= 1]
    and [max_attempts >= 1] every message the awaited call hands to the
    transport carries the given subject and body and a list of recipients
    that is not empty, holds at most [batch_size] addresses, and holds only
    stripped, non-empty entries of the argument. *)
Theorem send_email_to_many_messages_are_bounded
    (recipients : list string) (subject body : string)
    (batch_size max_attempts : Z) (s : state W) :
  1 <= batch_size -> 1 <= max_attempts ->
  let out := send_email_to_many send_message random recipients subject body
                                false batch_size max_attempts s in
  exists tr,
    trace (snd out) = trace s ++ tr
    /\ Forall (fun m =>
                 msg_subject m = subject /\ msg_body m = body
                 /\ msg_recipients m <> []
                 /\ Z.of_nat (length (msg_recipients m)) <= batch_size
                 /\ Forall (fun r => r <> ""%string
                                     /\ exists r0, r0 ∈ recipients
                                                   /\ r = Py.strip r0)
                           (msg_recipients m))
              (sends tr).
Proof. apply send_email_to_many_messages_shape. Qed.


(** X7.  With [background_tasks] the call itself never touches the
    transport: the state is returned unchanged.  The task it schedules,
    once run, leaves the same state as the awaited call and succeeds
    exactly when the awaited call does; nothing is scheduled exactly when
    no recipient is left after normalisation. *)
Theorem send_email_to_many_background_defers_the_send
    (recipients : list string) (subject body : string)
    (batch_size max_attempts : Z) (s : state W) :
  let scheduled := send_email_to_many send_message random recipients subject
                     body true batch_size max_attempts s in
  snd scheduled = s
  /\ (forall task, fst scheduled = Ok (Some task) ->
        forall s',
          snd (task s')
          = snd (send_email_to_many send_message random recipients subject
                   body false batch_size max_attempts s')
          /\ (fst (task s') = Ok tt <->
              fst (send_email_to_many send_message random recipients subject
                     body false batch_size max_attempts s') = Ok None))
  /\ (fst scheduled = Ok None <-> normalize recipients = []).
Proof.
  intros scheduled. subst scheduled. unfold send_email_to_many.
  destruct (normalize recipients) as [|r0 rs] eqn:En.
  - cbn. split; [done|]. split; [done|]. done.
  - destruct (batches_of (r0 :: rs) batch_size) as [batches|].
    + cbn [ret fst snd]. split; [done|]. split.
      * intros task [= <-] s'. unfold bind, ret.
        destruct (gather _ s') as [[l|e] s1]; cbn; split; done.
      * split; done.
    + cbn. split; [done|]. split; [done|]. split; done.
Qed.

End SendToManyExtras.

Lemma send_email_to_many_non_positive_batch_size_witness :
  Email.normalize (Examples.addresses 3) <> [] /\ -5 <= 0
  /\ Email.send_email_to_many Examples.accepts_all_mail Examples.three_quarters
       (Examples.addresses 3) "hello" "<p>hi</p>" false (-5) 3 Examples.fresh
     = (Email.Ok None, Examples.fresh).
Proof.
  assert (H : Email.normalize (Examples.addresses 3) <> []) by done.
  split; [exact H|]. split; [lia|].
  destruct (send_email_to_many_non_positive_batch_size Examples.accepts_all_mail
              Examples.three_quarters (Examples.addresses 3) "hello" "<p>hi</p>"
              false (-5) 3 Examples.fresh H ltac:(lia)) as [_ H2].
  destruct H2 as [H2 _]; [lia|exact H2].
Defined.

Lemma send_email_to_many_messages_are_bounded_witness :
  1 <= 2 /\ 1 <= 3
  /\ exists tr,
       Email.trace (snd (Email.send_email_to_many Examples.refuses_three
                           Examples.three_quarters (Examples.addresses 5)
                           "hello" "<p>hi</p>" false 2 3 Examples.fresh))
       = Email.trace Examples.fresh ++ tr
       /\ Forall (fun m => Z.of_nat (length (Email.msg_recipients m)) <= 2)
                 (Email.sends tr).
Proof.
  split; [lia|]. split; [lia|].
  destruct (send_email_to_many_messages_are_bounded Examples.refuses_three
              Examples.three_quarters (Examples.addresses 5) "hello" "<p>hi</p>"
              2 3 Examples.fresh ltac:(lia) ltac:(lia)) as (tr & H1 & H2).
  exists tr. split; [exact H1|].
  eapply Forall_impl; [exact H2|]. intros m (_ & _ & _ & H & _). exact H.
Defined.


(** ** Normalisation is stable *)

Section StripTwice.
Import Py.

Lemma lstrip_id (s : string) : starts_with_space s = false -> lstrip s = s.
Proof. destruct s as [|c t]; [done|]. cbn. by intros ->. Qed.

Lemma rstrip_id (s : string) : ends_with_space s = false -> rstrip s = s.
Proof.
  induction s as [|c t IH]; [done|]. cbn [ends_with_space rstrip].
  destruct t as [|c' t'].
  - cbn. by intros ->.
  - intros H. rewrite (IH H). done.
Qed.

Lemma strip_strip (s : string) : strip (strip s) = strip s.
Proof.
  destruct (strip_spec s) as (_ & _ & _ & _ & _ & Hhd & Hend).
  unfold strip at 1. rewrite (lstrip_id _ Hhd). by apply rstrip_id.
Qed.

Lemma normalize_fixed (l : list string) :
  Forall (fun r => strip r = r /\ r <> ""%string) l -> Email.normalize l = l.
Proof.
  intros H. unfold Email.normalize.
  induction H as [|r l [Hr Hne] _ IH]; [done|]. cbn [List.filter].
  rewrite Hr. destruct r; [done|]. cbn [truthy List.map]. by rewrite Hr, IH.
Qed.

Lemma normalize_normalize (l : list string) :
  Email.normalize (Email.normalize l) = Email.normalize l.
Proof.
  apply normalize_fixed. rewrite normalize_filter_map.
  apply Forall_forall. intros r Hr.
  apply elem_of_bool_filter in Hr as [Hmap Ht].
  apply list_elem_of_In, in_map_iff in Hmap as (r0 & <- & _).
  split; [apply strip_strip|by destruct (strip r0)].
Qed.

End StripTwice.

Section IntakeExtras.
Import Domain Service.
Variable gen_random_uuid : nat -> string.

Lemma bulk_values_normalized (items : list CreateNotificationSchema) values :
  bulk_values items = Some values ->
  values = List.map (fun item => (Email.normalize (req_recipients item), item))
                    items.
Proof.
  revert values. induction items as [|item rest IH]; intros values H.
  - by injection H as <-.
  - cbn [bulk_values] in H.
    destruct (Email.normalize (req_recipients item)) as [|r rs] eqn:En; [done|].
    destruct (bulk_values rest) as [vs|]; [|done]. injection H as <-.
    cbn [List.map]. by rewrite En, (IH vs).
Qed.

Lemma bulk_rows_lookup (drawn : nat) (now : Z)
    (values : list (list string * CreateNotificationSchema)) (k : nat) v :
  values !! k = Some v ->
  bulk_rows gen_random_uuid drawn now values !! k
  = Some (new_row (gen_random_uuid (drawn + k)) now (fst v) (snd v)).
Proof.
  revert drawn k. induction values as [|[recips item] vs IH]; intros drawn k H.
  - done.
  - destruct k as [|k]; cbn [bulk_rows].
    + injection H as <-. cbn. by rewrite Nat.add_0_r.
    + change (vs !! k = Some v) in H.
      change (bulk_rows gen_random_uuid (S drawn) now vs !! k
              = Some (new_row (gen_random_uuid (drawn + S k)) now (fst v) (snd v))).
      rewrite (IH (S drawn) k H). do 3 f_equal. lia.
Qed.

Lemma bulk_rows_length (drawn : nat) (now : Z)
    (values : list (list string * CreateNotificationSchema)) :
  length (bulk_rows gen_random_uuid drawn now values) = length values.
Proof.
  revert drawn. induction values as [|[recips item] vs IH]; intros drawn;
    [done|]. cbn. by rewrite IH.
Qed.

(** X8.  Normalising recipients twice is the same as normalising them
    once; so the recipients a row is created with, by the single or by the
    bulk intake, are left as they are by the normalisation the mailer
    applies before sending. *)
Theorem stored_recipients_are_already_normalized
    (db : database) (data : CreateNotificationSchema)
    (request : CreateBulkNotificationSchema) (now : Z) (l : list string) :
  Email.normalize (Email.normalize l) = Email.normalize l
  /\ (forall n,
        outcome (queue_notification gen_random_uuid db data now) = inr n ->
        Email.normalize (recipients n) = recipients n)
  /\ (forall created,
        outcome (queue_bulk_notifications gen_random_uuid db request now)
        = inr created ->
        forall n,
          n ∈ rows (store (queue_bulk_notifications gen_random_uuid db request now)) ->
          n ∉ rows db ->
          Email.normalize (recipients n) = recipients n).
Proof.
  split; [apply normalize_normalize|]. split.
  - intros n. unfold queue_notification.
    destruct (Email.normalize (req_recipients data)) as [|r rs] eqn:En; [done|].
    destruct (accepts _ _); [|done]. cbn. intros [= <-]. cbn [recipients new_row].
    rewrite <- En. apply normalize_normalize.
  - intros created. unfold queue_bulk_notifications.
    destruct (notifications request) as [|i0 items] eqn:Ereq.
    + cbn. intros _ n Hn Hnot. done.
    + destruct (bulk_values (i0 :: items)) as [values|] eqn:Ev; [|done].
      destruct (accepts_all _ _); [|done]. cbn. intros _ n Hn Hnot.
      apply elem_of_app in Hn as [Hn|Hn]; [done|].
      apply list_elem_of_lookup in Hn as [k Hk].
      assert (Hlt : (k < length values)%nat).
      { apply lookup_lt_Some in Hk. by rewrite bulk_rows_length in Hk. }
      destruct (lookup_lt_is_Some_2 values k Hlt) as [v Hv].
      rewrite (bulk_rows_lookup _ _ _ _ _ Hv) in Hk. injection Hk as <-.
      cbn [recipients new_row].
      rewrite (bulk_values_normalized _ _ Ev) in Hv.
      rewrite list_lookup_map in Hv.
      destruct ((i0 :: items) !! k) as [item|]; [|done].
      injection Hv as <-. cbn [fst]. apply normalize_normalize.
Qed.

End IntakeExtras.

Section IntakeInvariants.
Import Domain Service.
Variable gen_random_uuid : nat -> string.

Lemma well_formed_snoc (t : table) (n : Notification) :
  well_formed t -> accepts t n = true -> well_formed (t ++ [n]).
Proof.
  intros [Hpk Hck] Hacc. unfold accepts in Hacc.
  apply andb_true_iff in Hacc as [Hc Hfresh].
  apply negb_true_iff, bool_decide_eq_false in Hfresh.
  split.
  - unfold primary_key, ids in *. rewrite List.map_app. cbn [List.map].
    apply NoDup_app. split; [done|]. split.
    + intros x Hx Hx'. apply list_elem_of_singleton in Hx'. by subst x.
    + apply NoDup_singleton.
  - apply Forall_app. split; [done|]. by repeat constructor.
Qed.

Lemma well_formed_accepts_all (new : list Notification) (t : table) :
  well_formed t -> accepts_all t new = true -> well_formed (t ++ new).
Proof.
  revert t. induction new as [|n rest IH]; intros t Hwf Hacc.
  - by rewrite app_nil_r.
  - cbn [accepts_all] in Hacc. apply andb_true_iff in Hacc as [Hn Hrest].
    replace (t ++ n :: rest) with ((t ++ [n]) ++ rest)
      by (by rewrite <- app_assoc).
    apply IH; [by apply well_formed_snoc|done].
Qed.

(** X9.  Intake keeps the table well formed: if the identifiers are
    pairwise different and every row satisfies the check constraints
    (priority between -10 and 100, attempt count not negative), the same
    holds after [queue_notification] and after [queue_bulk_notifications],
    whether they stored rows or refused. *)
Theorem intake_keeps_the_table_well_formed
    (db : database) (data : CreateNotificationSchema)
    (request : CreateBulkNotificationSchema) (now : Z) :
  primary_key (rows db) ->
  Forall (fun n => check_constraints n = true) (rows db) ->
  (primary_key (rows (store (queue_notification gen_random_uuid db data now)))
   /\ Forall (fun n => check_constraints n = true)
             (rows (store (queue_notification gen_random_uuid db data now))))
  /\ (primary_key
        (rows (store (queue_bulk_notifications gen_random_uuid db request now)))
      /\ Forall (fun n => check_constraints n = true)
           (rows (store (queue_bulk_notifications gen_random_uuid db request now)))).
Proof.
  intros Hpk Hck. assert (Hwf : well_formed (rows db)) by done. split.
  - unfold queue_notification.
    destruct (Email.normalize (req_recipients data)) as [|r rs]; [done|].
    destruct (accepts _ _) eqn:Hacc; [|done]. cbn [store rows].
    by apply well_formed_snoc.
  - unfold queue_bulk_notifications.
    destruct (notifications request) as [|i0 items]; [done|].
    destruct (bulk_values _) as [values|]; [|done].
    destruct (accepts_all _ _) eqn:Hacc; [|done]. cbn [store rows].
    by apply well_formed_accepts_all.
Qed.

(** X10.  The bulk intake stores all the notifications of a request or
    none.  When it returns, it returns one identifier per notification, in
    the order of the request, the rows were appended in that order with
    the subject, message, priority and schedule time of their item, its
    normalised recipients, status PENDING and no attempt, and exactly these
    identifiers are handed to the background runner (none for an empty
    request).  When it raises, the rows are unchanged and nothing is
    handed over. *)
Theorem bulk_intake_is_all_or_nothing
    (db : database) (request : CreateBulkNotificationSchema) (now : Z) :
  let r := queue_bulk_notifications gen_random_uuid db request now in
  (forall e, outcome r = inl e ->
             rows (store r) = rows db /\ scheduled r = None)
  /\ (forall created, outcome r = inr created ->
        length created = length (notifications request)
        /\ (notifications request = [] -> scheduled r = None /\ store r = db)
        /\ (notifications request <> [] -> scheduled r = Some created)
        /\ exists new,
             rows (store r) = rows db ++ new
             /\ created = ids new
             /\ forall (k : nat) item,
                  notifications request !! k = Some item ->
                  exists n,
                    new !! k = Some n
                    /\ id n = gen_random_uuid (uuids_drawn db + k)
                    /\ subject n = req_subject item
                    /\ message n = req_message item
                    /\ priority n = req_priority item
                    /\ scheduled_at n = req_scheduled_at item
                    /\ recipients n = Email.normalize (req_recipients item)
                    /\ status n = PENDING /\ attempt_count n = 0).
Proof.
  intros r. subst r. unfold queue_bulk_notifications.
  destruct (notifications request) as [|i0 items] eqn:Ereq.
  - split; [done|]. intros created [= <-]. cbn.
    split; [done|]. split; [done|]. split; [done|].
    exists []. rewrite app_nil_r. split; [done|]. split; [done|]. done.
  - destruct (bulk_values (i0 :: items)) as [values|] eqn:Ev.
    + destruct (accepts_all _ _).
      * split; [done|]. intros created [= <-]. cbn [store rows scheduled].
        pose proof (bulk_values_normalized _ _ Ev) as Hvals.
        split.
        { unfold ids. rewrite length_map, bulk_rows_length, Hvals.
          by rewrite length_map. }
        split; [done|]. split; [done|].
        eexists. split; [done|]. split; [done|].
        intros k item Hk.
        assert (Hv : values !! k
                     = Some (Email.normalize (req_recipients item), item))
          by (by rewrite Hvals, list_lookup_map, Hk).
        eexists. split; [by apply bulk_rows_lookup|]. by cbn.
      * split; [|done]. intros e _. by cbn.
    + split; [|done]. intros e _. by cbn.
Qed.

End IntakeInvariants.

Lemma intake_keeps_the_table_well_formed_witness :
  Domain.primary_key (Service.rows Examples.empty_store)
  /\ Forall (fun n => Domain.check_constraints n = true)
            (Service.rows Examples.empty_store)
  /\ Domain.primary_key
       (Service.rows (Service.store
          (Service.queue_notification Examples.uuid Examples.empty_store
             (Examples.request ["ada@example.org"]%string) 7))).
Proof.
  assert (H1 : Domain.primary_key (Service.rows Examples.empty_store))
    by constructor.
  assert (H2 : Forall (fun n => Domain.check_constraints n = true)
                      (Service.rows Examples.empty_store)) by constructor.
  split; [exact H1|]. split; [exact H2|].
  destruct (intake_keeps_the_table_well_formed Examples.uuid
              Examples.empty_store
              (Examples.request ["ada@example.org"]%string)
              {| Service.notifications := [] |} 7 H1 H2) as [[H _] _].
  exact H.
Defined.

(** ** The background runner *)

Section Runner.
Import Domain Service.
Context {W : Type}.
Variable send_message : Email.MessageSchema -> W -> option Email.exn * W.
Variable random : W -> Q * W.

(** The runner's send for one row returns the row's identifier with a
    flag that tells whether the mailer returned. *)
Lemma service_send_one_eq (n : Notification) (s : Email.state W) :
  let out := Email.send_email_to_many send_message random (recipients n)
               (subject n) (message n) false 50 3 s in
  _send_one send_message random n s
  = (Email.Ok (id n, match fst out with
                     | Email.Ok _ => true
                     | Email.Raise _ => false
                     end), snd out).
Proof.
  intros out. subst out. unfold _send_one, Email.try_except, Email.bind.
  by destruct (Email.send_email_to_many _ _ _ _ _ _ _ _ s) as [[v|e] s1].
Qed.

Lemma results_ids (P : Notification -> string * bool -> Prop)
    (items : list Notification) (results : list (string * bool)) :
  Forall2 (fun n res => fst res = id n /\ P n res) items results ->
  List.map fst results = ids items.
Proof.
  induction 1 as [|n res ns rs [E _] _ IH]; [done|]. cbn. by rewrite E, IH.
Qed.

(** The rows after a run, given what is known ([Q]) of the flag of each
    row's send. *)
Lemma process_notifications_async_rows (Q : Notification -> bool -> Prop)
    (notification_ids : list string) (now : Z) (t : table)
    (s : Email.state W) :
  (forall n s0, exists ok s1,
      _send_one send_message random n s0 = (Email.Ok (id n, ok), s1)
      /\ Q n ok) ->
  primary_key t ->
  exists t' s',
    process_notifications_async send_message random notification_ids now t s
    = (Email.Ok t', s')
    /\ length t' = length t
    /\ forall (i : nat) (n : Notification),
         t !! i = Some n ->
         (id n ∈ notification_ids ->
          exists ok ids0,
            Q n ok
            /\ t' !! i
               = Some (apply_values (if ok then success_update ids0 now
                                     else failure_update ids0 now) n))
         /\ (id n ∉ notification_ids -> t' !! i = Some n).
Proof.
  intros HQ Hpk. unfold process_notifications_async.
  destruct notification_ids as [|i0 rest] eqn:Eids.
  { exists t, s. split; [done|]. split; [done|]. intros i n Hi.
    split; [intros H; by apply elem_of_nil in H|done]. }
  rewrite <- Eids. clear Eids i0 rest.
  set (items := List.filter
                  (fun n => bool_decide (id n ∈ notification_ids)) t).
  assert (Hitems : forall n, n ∈ items <-> n ∈ t /\ id n ∈ notification_ids).
  { intros n. subst items. rewrite elem_of_bool_filter.
    by rewrite bool_decide_eq_true. }
  destruct items as [|it0 its] eqn:Eit.
  { exists t, s. split; [done|]. split; [done|]. intros i n Hi.
    split; [|done]. intros Hin. exfalso.
    assert (n ∈ []) as H; [|by apply elem_of_nil in H].
    apply Hitems. split; [by eapply list_elem_of_lookup_2|done]. }
  rewrite <- Eit in *. clear Eit it0 its.
  destruct (gather_returns (_send_one send_message random)
              (fun n res => fst res = id n /\ Q n (snd res)) items)
    with (s := s) as (results & s' & Hg & Hres).
  { intros n s0. destruct (HQ n s0) as (ok & s1 & -> & Hq).
    by eexists _, _. }
  unfold Email.bind. rewrite Hg. cbn [Email.ret].
  exists (apply_results results now t), s'. split; [done|].
  rewrite apply_results_rows. split; [by rewrite length_map|].
  assert (Hfst : List.map fst results = ids items)
    by exact (results_ids (fun n res => Q n (snd res)) _ _ Hres).
  assert (Hnd : NoDup (List.map fst results)).
  { rewrite Hfst. eapply sublist_NoDup; [exact Hpk|].
    apply ids_sublist. apply filter_sublist. }
  intros i n Hi. rewrite list_lookup_map, Hi. cbn [fmap option_fmap option_map].
  assert (Hnt : n ∈ t) by (by eapply list_elem_of_lookup_2).
  split.
  - intros Hin. assert (Hn : n ∈ items) by (by apply Hitems).
    apply list_elem_of_lookup in Hn as [k Hk].
    destruct (Forall2_lookup_l _ _ _ _ _ Hres Hk) as ([nid ok] & Hr & E & Hq).
    cbn in E, Hq. subst nid. apply list_elem_of_lookup_2 in Hr.
    exists ok. unfold after_writes. destruct ok.
    + assert (H1 : id n ∈ success_ids results)
        by (by apply elem_of_success_ids).
      assert (H2 : id n ∉ failure_ids results)
        by (by apply partition_disjoint).
      rewrite (bool_decide_eq_true_2 _ H1), id_apply_values,
        (bool_decide_eq_false_2 _ H2).
      by eexists.
    + assert (H2 : id n ∈ failure_ids results)
        by (by apply elem_of_failure_ids).
      assert (H1 : id n ∉ success_ids results).
      { intros H1. by apply (partition_disjoint results (id n) Hnd H1). }
      rewrite (bool_decide_eq_false_2 _ H1), (bool_decide_eq_true_2 _ H2).
      by eexists.
  - intros Hnot. unfold after_writes.
    assert (Hno : id n ∉ List.map fst results).
    { rewrite Hfst. intros H. apply list_elem_of_In, in_map_iff in H
        as (m & E & Hm). apply list_elem_of_In, Hitems in Hm as [_ Hm].
      by rewrite E in Hm. }
    assert (H1 : id n ∉ success_ids results).
    { intros H. apply elem_of_success_ids in H. apply Hno.
      apply list_elem_of_In, in_map_iff. exists (id n, true).
      split; [done|]. by apply list_elem_of_In. }
    assert (H2 : id n ∉ failure_ids results).
    { intros H. apply elem_of_failure_ids in H. apply Hno.
      apply list_elem_of_In, in_map_iff. exists (id n, false).
      split; [done|]. by apply list_elem_of_In. }
    by rewrite (bool_decide_eq_false_2 _ H1), (bool_decide_eq_false_2 _ H2).
Qed.

End Runner.

Section RunnerOutcomes.
Import Domain Service.
Context {W : Type}.
Variable send_message : Email.MessageSchema -> W -> option Email.exn * W.
Variable random : W -> Q * W.



(** X11.  The background runner, on a table with a primary key, returns
    and settles exactly the rows whose identifier it was given, whatever
    their status and schedule time: each ends with its attempt count one
    higher and the last-attempt time now, and either SENT with the sent time
    now and no last error, or FAILED with the sent time unchanged and the
    last error "One or more recipient sends failed".  Every other row is
    unchanged, and when no row is listed the runner does nothing at all. *)
Theorem background_runner_settles_the_listed_rows
    (notification_ids : list string) (now : Z) (t : table)
    (s : Email.state W) :
  primary_key t ->
  let out := process_notifications_async send_message random
               notification_ids now t s in
  (exists t',
     fst out = Email.Ok t'
     /\ length t' = length t
     /\ forall (i : nat) (n : Notification),
          t !! i = Some n ->
          exists n',
            t' !! i = Some n' /\ id n' = id n
            /\ (id n ∈ notification_ids ->
                attempt_count n' = attempt_count n + 1
                /\ last_attempt_at n' = Some now
                /\ ((status n' = SENT /\ sent_at n' = Some now
                     /\ last_error n' = None)
                    \/ (status n' = FAILED /\ sent_at n' = sent_at n
                        /\ last_error n'
                           = Some "One or more recipient sends failed"%string)))
            /\ (id n ∉ notification_ids -> n' = n))
  /\ (Forall (fun n => id n ∉ notification_ids) t -> out = (Email.Ok t, s)).
Proof.
  intros Hpk out. split.
  - destruct (process_notifications_async_rows send_message random
                (fun _ _ => True) notification_ids now t s)
      as (t' & s' & Hout & Hlen & Hrows); [|done|].
    { intros n s0. rewrite service_send_one_eq. by eexists _, _. }
    subst out. rewrite Hout. exists t'. split; [done|]. split; [done|].
    intros i n Hi. destruct (Hrows i n Hi) as [Hin Hnot].
    destruct (decide (id n ∈ notification_ids)) as [Hd|Hd].
    + destruct (Hin Hd) as (ok & ids0 & _ & ->). eexists. split; [done|].
      split; [apply id_apply_values|]. split; [|done]. intros _.
      destruct ok; cbn; (split; [done|]); (split; [done|]);
        [by left|by right].
    + rewrite (Hnot Hd). exists n. repeat split; try done.
  - intros Hnone. subst out. unfold process_notifications_async.
    destruct notification_ids as [|i0 rest]; [done|].
    replace (List.filter _ t) with (@nil Notification); [done|].
    symmetry. clear Hpk. induction Hnone as [|n l Hn _ IH]; [done|].
    cbn [List.filter]. case_bool_decide; [done|exact IH].
Qed.


End RunnerOutcomes.

(** ** The worker's turn, row by row *)

Section TurnRows.
Import Domain Worker.
Context {W : Type}.
Variable send_message : Email.MessageSchema -> W -> option Email.exn * W.
Variable random : W -> Q * W.

(** The session after the claimed rows were marked: each holds its row,
    marked PROCESSING, and nothing else. *)
Lemma marked_lookup (batch : list Notification) (n : Notification) :
  NoDup (ids batch) -> n ∈ batch ->
  mark_processing (load batch) (ids batch) !! id n
  = Some (set_status PROCESSING n).
Proof.
  intros Hnd Hn. unfold mark_processing.
  pose proof (foldl_alter_once (fun ref : string => ref)
                (fun _ => set_status PROCESSING) (ids batch)
                (load batch) (id n)) as H.
  cbn beta in H. rewrite H.
  - by rewrite load_lookup.
  - by rewrite List.map_id.
  - apply list_elem_of_In, in_map. by apply list_elem_of_In.
Qed.

Lemma marked_lookup_None (batch : list Notification) (k : string) :
  k ∉ ids batch -> mark_processing (load batch) (ids batch) !! k = None.
Proof.
  intros Hk. unfold mark_processing.
  pose proof (foldl_alter_other (fun ref : string => ref)
                (fun _ => set_status PROCESSING) (ids batch)
                (load batch) k) as H.
  cbn beta in H. rewrite H.
  - by apply load_lookup_None.
  - by rewrite List.map_id.
Qed.

Lemma marked_lookup_Some (batch : list Notification) (k : string) n0 :
  NoDup (ids batch) ->
  mark_processing (load batch) (ids batch) !! k = Some n0 ->
  exists n, n ∈ batch /\ id n = k /\ n0 = set_status PROCESSING n.
Proof.
  intros Hnd Hk. destruct (decide (k ∈ ids batch)) as [Hin|Hout].
  - apply list_elem_of_In, in_map_iff in Hin as (n & <- & Hn).
    apply list_elem_of_In in Hn. rewrite (marked_lookup batch n Hnd Hn) in Hk.
    injection Hk as <-. by exists n.
  - by rewrite (marked_lookup_None batch k Hout) in Hk.
Qed.

(** The worker's send for one claimed job: one [send_email] per recipient,
    its flag and error text read off the outcome of their [gather]. *)
Lemma worker_send_one_eq (objects : gmap string Notification)
    (n : Notification) (ref : string) (s : Email.state W) :
  objects !! ref = Some n ->
  let out := Email.gather
               (List.map (fun r => Email.send_email send_message random r
                                     (subject n) (message n) false 3)
                         (recipients n)) s in
  _send_one send_message random objects ref s
  = (Email.Ok match fst out with
              | Email.Ok _ => (ref, true, None)
              | Email.Raise e => (ref, false, Some (Email.str_exn e))
              end, snd out).
Proof.
  intros Hn out. subst out. unfold _send_one. rewrite Hn.
  unfold Email.try_except, Email.bind.
  by destruct (Email.gather _ s) as [[l|e] s1].
Qed.

(** The table after a turn, given what is known ([Q]) of the outcome of
    each claimed job's send. *)
Lemma main_loop_turn_rows (Q : Notification -> bool -> option string -> Prop)
    (limit now now' : Z) (locked : list string) (t : table)
    (s : Email.state W) :
  primary_key t ->
  let batch := select_batch limit now locked t in
  (forall n s0, n ∈ batch ->
     exists ok err s1,
       _send_one send_message random
         (mark_processing (load batch) (ids batch)) (id n) s0
       = (Email.Ok (id n, ok, err), s1) /\ Q n ok err) ->
  exists t' s',
    main_loop_turn send_message random limit now now' locked t s
    = (Email.Ok t', s')
    /\ length t' = length t
    /\ forall (i : nat) (n : Notification),
         t !! i = Some n ->
         (n ∈ batch ->
          exists ok err,
            Q n ok err
            /\ t' !! i = Some (settle now' ok err (set_status PROCESSING n)))
         /\ (n ∉ batch -> t' !! i = Some n).
Proof.
  intros Hpk batch HQ. unfold main_loop_turn.
  fold batch. unfold Email.try_except.
  assert (Hsub : batch `sublist_of` t) by apply filter_sublist.
  assert (Hnd : NoDup (ids batch))
    by (eapply sublist_NoDup; [exact Hpk|by apply ids_sublist]).
  destruct batch as [|b0 bs] eqn:Eb.
  { eexists t, _. unfold Email.bind, Email.sleep, Email.emit, Email.ret.
    cbn. split; [done|]. split; [done|]. intros i n Hi.
    split; [|done]. intros Hn. by apply elem_of_nil in Hn. }
  rewrite <- Eb in *. clear Eb b0 bs.
  set (h1 := mark_processing (load batch) (ids batch)) in *.
  destruct (gather_returns (_send_one send_message random h1)
              (fun ref res =>
                 fst (fst res) = ref
                 /\ forall n, n ∈ batch -> id n = ref ->
                              Q n (snd (fst res)) (snd res))
              (ids batch)) with (s := s) as (results & s' & Hg & Hres).
  { intros ref s0.
    destruct (_send_one_returns send_message random h1 ref s0)
      as (ok & err & s1 & E).
    exists (ref, ok, err), s1. split; [done|]. split; [done|].
    intros n Hn <-. destruct (HQ n s0 Hn) as (ok' & err' & s1' & E' & Hq).
    rewrite E in E'. by injection E' as -> -> _. }
  assert (Hrefs : List.map (fun res => fst (fst res)) results = ids batch).
  { clear Hg. revert Hres. generalize (ids batch). intros refs Hres.
    induction Hres as [|ref res refs' rs [E _] _ IH]; [done|].
    cbn. by rewrite E, IH. }
  unfold process_batch, Email.bind. rewrite Hg. cbn [fst snd Email.ret].
  set (h2 := foldl (record_result now') h1 results).
  exists (commit h2 (commit h1 t)), s'. split; [done|].
  split; [unfold commit; by rewrite !length_map|].
  intros i n Hi. unfold commit.
  rewrite !list_lookup_map, Hi. cbn [fmap option_fmap option_map].
  assert (Hnt : n ∈ t) by (by eapply list_elem_of_lookup_2).
  assert (Hin : id n ∈ ids batch -> n ∈ batch).
  { intros H. apply list_elem_of_In, in_map_iff in H as (m & E & Hm).
    apply list_elem_of_In in Hm.
    assert (m ∈ t) by (by eapply elem_of_sublist).
    by rewrite <- (primary_key_inj t m n Hpk). }
  split.
  - intros Hn.
    assert (H1 : h1 !! id n = Some (set_status PROCESSING n))
      by (by apply marked_lookup).
    rewrite H1. cbn [from_option].
    unfold Datatypes.id. change (id (set_status PROCESSING n)) with (id n).
    assert (Hid : id n ∈ ids batch)
      by (apply list_elem_of_In, in_map; by apply list_elem_of_In).
    apply list_elem_of_lookup in Hid as [k Hk].
    destruct (Forall2_lookup_l _ _ _ _ _ Hres Hk) as (res & Hr & E & Hq).
    apply list_elem_of_lookup_2 in Hr.
    assert (H2 : h2 !! id n
                 = Some (settle now' (snd (fst res)) (snd res)
                                (set_status PROCESSING n))).
    { subst h2. rewrite record_results_alter, <- E.
      rewrite (foldl_alter_once (fun res => fst (fst res))
                 (fun res => settle now' (snd (fst res)) (snd res))
                 results h1 res); [|by rewrite Hrefs|done].
      by rewrite E, H1. }
    rewrite H2. cbn [from_option].
    exists (snd (fst res)), (snd res). split; [by apply Hq|done].
  - intros Hn. assert (Hid : id n ∉ ids batch) by (intros H; by apply Hn, Hin).
    assert (H1 : h1 !! id n = None) by (by apply marked_lookup_None).
    rewrite H1. cbn [from_option].
    assert (H2 : h2 !! id n = None).
    { subst h2. rewrite record_results_alter.
      rewrite foldl_alter_other; [done|]. by rewrite Hrefs. }
    by rewrite H2.
Qed.

End TurnRows.

(** ** What the worker claims, and what it leaves alone *)

Section ClaimExtras.
Import Domain Worker.

Lemma claimed_is_claimable (limit now : Z) (locked : list string) (t : table)
    (n : Notification) :
  primary_key t ->
  n ∈ select_batch limit now locked t ->
  n ∈ t /\ claimable now locked n = true.
Proof.
  intros Hpk Hn. rewrite (select_batch_picked limit now locked t Hpk) in Hn.
  by apply picked_in_table in Hn.
Qed.

Lemma filter_id_in_nil (t : table) :
  List.filter (fun n => bool_decide (id n ∈ @nil string)) t = [].
Proof.
  induction t as [|n l IH]; [done|]. cbn [List.filter].
  case_bool_decide as Hin; [by apply elem_of_nil in Hin|exact IH].
Qed.

Lemma nothing_claimable (limit now : Z) (locked : list string) (t : table) :
  Forall (fun n => claimable now locked n = false) t \/ limit <= 0 ->
  select_batch limit now locked t = [].
Proof.
  intros H. unfold select_batch.
  assert (Hsub : subquery limit now locked t = []).
  { unfold subquery. destruct H as [H|H].
    - replace (List.filter (claimable now locked) t) with (@nil Notification);
        [change (merge_sort claim_order []) with (@nil Notification);
         by rewrite take_nil|].
      symmetry. induction H as [|n l Hn _ IH]; [done|].
      cbn [List.filter]. by rewrite Hn.
    - replace (Z.to_nat limit) with 0%nat by lia. by rewrite take_0. }
  rewrite Hsub. apply filter_id_in_nil.
Qed.

Variable gen_random_uuid : nat -> string.

(** X13.  The worker never claims a row without a schedule time, a row
    scheduled after now, or a row whose status is not PENDING, whatever the
    limit and the locks.  A notification queued without a schedule time is
    stored without one, so the worker never picks it up: only the
    background runner scheduled at intake sends it. *)
Theorem worker_never_claims_unscheduled_jobs
    (limit now : Z) (locked : list string) (t : table) (n : Notification)
    (db : Service.database) (data : Service.CreateNotificationSchema)
    (now0 : Z) :
  primary_key t ->
  n ∈ t ->
  (scheduled_at n = None
   \/ (exists at_, scheduled_at n = Some at_ /\ now < at_)
   \/ status n <> PENDING ->
   n ∉ select_batch limit now locked t)
  /\ (Service.req_scheduled_at data = None ->
      forall n0,
        Service.outcome (Service.queue_notification gen_random_uuid db data now0)
        = inr n0 ->
        scheduled_at n0 = None /\ due now n0 = false).
Proof.
  intros Hpk Hnt. split.
  - intros Hwhy Hn.
    destruct (claimed_is_claimable _ _ _ _ _ Hpk Hn) as [_ Hc].
    unfold claimable in Hc. apply andb_true_iff in Hc as [Hd _].
    destruct (due_spec _ _ Hd) as (Hs & at_ & Hat & Hle).
    destruct Hwhy as [H|[(at' & H & Hlt)|H]]; [congruence| |done].
    rewrite Hat in H. injection H as <-. lia.
  - intros Hnone n0. unfold Service.queue_notification.
    destruct (Email.normalize _) as [|r rs]; [done|].
    destruct (Service.accepts _ _); [|done]. cbn. intros [= <-].
    cbn. rewrite Hnone. split; [done|]. unfold due. cbn. by rewrite Hnone.
Qed.

(** X14.  Two claimers never take the same job: if the second one sees
    the rows claimed by the first as locked, no row is in both batches,
    whatever their limits and clocks. *)
Theorem concurrent_claims_are_disjoint
    (limit1 limit2 now1 now2 : Z) (locked1 locked2 : list string)
    (t : table) :
  primary_key t ->
  (forall k, k ∈ ids (select_batch limit1 now1 locked1 t) -> k ∈ locked2) ->
  forall n,
    n ∈ select_batch limit2 now2 locked2 t ->
    n ∉ select_batch limit1 now1 locked1 t.
Proof.
  intros Hpk Hlocked n H2 H1.
  destruct (claimed_is_claimable _ _ _ _ _ Hpk H2) as [_ Hc].
  unfold claimable in Hc. apply andb_true_iff in Hc as [_ Hl].
  apply negb_true_iff, bool_decide_eq_false in Hl. apply Hl, Hlocked.
  apply list_elem_of_In, in_map. by apply list_elem_of_In.
Qed.

End ClaimExtras.

Section TurnExtras.
Import Domain Worker.
Context {W : Type}.
Variable send_message : Email.MessageSchema -> W -> option Email.exn * W.
Variable random : W -> Q * W.

(** X15.  A turn that finds nothing to claim (no row is claimable, or the
    limit is not positive) leaves the table as it is, touches no transport
    and sleeps [WORKER_SLEEP_INTERVAL] = 10 seconds once. *)
Theorem idle_turn_only_sleeps
    (limit now now' : Z) (locked : list string) (t : table)
    (s : Email.state W) :
  Forall (fun n => claimable now locked n = false) t \/ limit <= 0 ->
  main_loop_turn send_message random limit now now' locked t s
  = (Email.Ok t,
     {| Email.world := Email.world s;
        Email.trace := Email.trace s ++ [Email.EvSleep (inject_Z 10)] |}).
Proof.
  intros H. unfold main_loop_turn. rewrite (nothing_claimable _ _ _ _ H).
  reflexivity.
Qed.

Lemma ids_of_rows (t t' : table) :
  length t' = length t ->
  (forall i n, t !! i = Some n -> exists n', t' !! i = Some n' /\ id n' = id n) ->
  ids t' = ids t.
Proof.
  intros Hlen Hrows. unfold ids. apply list_eq. intros i.
  rewrite !list_lookup_map. destruct (t !! i) as [n|] eqn:Hi.
  - destruct (Hrows i n Hi) as (n' & -> & E). cbn. by rewrite E.
  - apply lookup_ge_None in Hi. rewrite <- Hlen in Hi.
    apply lookup_ge_None in Hi. by rewrite Hi.
Qed.

(** X16.  What a turn has processed it never claims again: after the
    turn the identifiers are the same and still pairwise different, and no
    later claim on the resulting table, whatever its limit, clock and
    locks, returns a row of the batch (so a FAILED job is not retried by
    the worker); the rows it can return are rows the turn left
    untouched. *)
Theorem processed_jobs_are_never_claimed_again
    (limit now now' : Z) (locked : list string) (t : table)
    (s : Email.state W) :
  primary_key t ->
  let batch := select_batch limit now locked t in
  exists t',
    fst (main_loop_turn send_message random limit now now' locked t s)
    = Email.Ok t'
    /\ ids t' = ids t
    /\ primary_key t'
    /\ forall (limit2 now2 : Z) (locked2 : list string) (n' : Notification),
         n' ∈ select_batch limit2 now2 locked2 t' ->
         (id n' ∉ ids batch) /\ n' ∈ t /\ (n' ∉ batch).
Proof.
  intros Hpk batch.
  destruct (main_loop_turn_rows send_message random (fun _ _ _ => True)
              limit now now' locked t s Hpk)
    as (t' & s' & Hout & Hlen & Hrows).
  { intros n s0 Hn.
    destruct (_send_one_returns send_message random
                (mark_processing (load (select_batch limit now locked t))
                   (ids (select_batch limit now locked t))) (id n) s0)
      as (ok & err & s1 & E). by eexists _, _, _. }
  fold batch in Hrows.
  assert (Hsub : batch `sublist_of` t) by apply filter_sublist.
  assert (Hids : ids t' = ids t).
  { apply ids_of_rows; [done|]. intros i n Hi.
    destruct (Hrows i n Hi) as [Hin Hnot].
    destruct (decide (id n ∈ ids batch)) as [Hd|Hd].
    - assert (Hn : n ∈ batch).
      { apply list_elem_of_In, in_map_iff in Hd as (m & E & Hm).
        apply list_elem_of_In in Hm.
        assert (m ∈ t) by (by eapply elem_of_sublist).
        assert (n ∈ t) by (by eapply list_elem_of_lookup_2).
        by rewrite <- (primary_key_inj t m n Hpk). }
      destruct (Hin Hn) as (ok & err & _ & ->). eexists. split; [done|].
      by rewrite id_settle.
    - assert (Hn : n ∉ batch).
      { intros Hn. apply Hd, list_elem_of_In, in_map. by apply list_elem_of_In. }
      rewrite (Hnot Hn). by exists n. }
  rewrite Hout. exists t'. split; [done|]. split; [done|].
  assert (Hpk' : primary_key t') by (unfold primary_key; by rewrite Hids).
  split; [done|].
  intros limit2 now2 locked2 n' Hn'.
  destruct (claimed_is_claimable _ _ _ _ _ Hpk' Hn') as [Hnt' Hc].
  unfold claimable in Hc. apply andb_true_iff in Hc as [Hd _].
  destruct (due_spec _ _ Hd) as [Hpending _].
  apply list_elem_of_lookup in Hnt' as [i Hi'].
  assert (Hlt : (i < length t)%nat)
    by (rewrite <- Hlen; by eapply lookup_lt_Some).
  destruct (lookup_lt_is_Some_2 t i Hlt) as [n Hi].
  destruct (Hrows i n Hi) as [Hin Hnot].
  assert (Hnb : n ∉ batch).
  { intros Hn. destruct (Hin Hn) as (ok & err & _ & E).
    rewrite E in Hi'. injection Hi' as <-.
    destruct (settle_counts now' ok err (set_status PROCESSING n)) as [_ Hst].
    rewrite Hst in Hpending. by destruct ok. }
  rewrite (Hnot Hnb) in Hi'. injection Hi' as <-.
  split; [|split; [by eapply list_elem_of_lookup_2|done]].
  intros Hd'. apply Hnb.
  apply list_elem_of_In, in_map_iff in Hd' as (m & E & Hm).
  apply list_elem_of_In in Hm.
  assert (m ∈ t) by (by eapply elem_of_sublist).
  assert (n ∈ t) by (by eapply list_elem_of_lookup_2).
  by rewrite <- (primary_key_inj t m n Hpk).
Qed.

End TurnExtras.

(** ** What a turn of the worker sends, and how it ends *)

Section TurnSends.
Import Domain Worker.
Context {W : Type}.
Variable send_message : Email.MessageSchema -> W -> option Email.exn * W.
Variable random : W -> Q * W.

Lemma sends_of_segment (msg : Email.MessageSchema) (tr : list Email.event) :
  Forall (fun ev => ev = Email.EvSend msg \/ exists d, ev = Email.EvSleep d) tr ->
  Forall (fun m => m = msg) (Email.sends tr).
Proof.
  induction 1 as [|ev l [->|[d ->]] _ IH]; cbn; [constructor| |exact IH].
  by constructor.
Qed.

Lemma sends_concat {X} (R : X -> Email.MessageSchema -> Prop) (xs : list X)
    (trs : list (list Email.event)) :
  Forall2 (fun x tr => Forall (R x) (Email.sends tr)) xs trs ->
  Forall (fun m => exists x, x ∈ xs /\ R x m) (Email.sends (concat trs)).
Proof.
  induction 1 as [|x tr xs trs Hx _ IH]; [constructor|].
  cbn [concat]. rewrite sends_app. apply Forall_app. split.
  - eapply Forall_impl; [exact Hx|]. intros m Hm. exists x. split; [left|done].
  - eapply Forall_impl; [exact IH|]. intros m (y & Hy & Hm).
    exists y. split; [by right|done].
Qed.

Lemma send_email_run (email subject body : string) (max_attempts : Z)
    (s : Email.state W) :
  1 <= max_attempts ->
  let out := Email.send_email send_message random email subject body false
                              max_attempts s in
  exists tr,
    Email.trace (snd out) = Email.trace s ++ tr
    /\ Forall (fun m => m = {| Email.msg_subject := subject;
                              Email.msg_recipients := [email];
                              Email.msg_body := body |})
              (Email.sends tr)
    /\ (Email.transport_never_fails send_message -> fst out = Email.Ok None).
Proof.
  intros Hn out. subst out.
  destruct (retry_send_full send_message random
              {| Email.msg_subject := subject; Email.msg_recipients := [email];
                 Email.msg_body := body |} max_attempts s Hn)
    as (tr & Htr & Hall & _ & Hnever).
  unfold Email.send_email, Email._send_one, Email.bind, Email.ret.
  destruct (Email._retry _ _ _ _ _ s) as [[[]|e] s1] eqn:E;
    cbn [fst snd] in *; exists tr; (split; [done|]);
    (split; [by apply sends_of_segment|]); intros H; by destruct (Hnever H).
Qed.



(** X17.  Every message a turn hands to the transport goes to exactly one
    recipient of a job of the claimed batch, as it is stored, with that
    job's subject and message: jobs that were not claimed get no mail. *)
Theorem worker_mails_only_recipients_of_claimed_jobs
    (limit now now' : Z) (locked : list string) (t : table)
    (s : Email.state W) :
  primary_key t ->
  let batch := select_batch limit now locked t in
  let out := main_loop_turn send_message random limit now now' locked t s in
  exists tr,
    Email.trace (snd out) = Email.trace s ++ tr
    /\ Forall (fun m =>
                 exists n r,
                   n ∈ batch /\ r ∈ recipients n
                   /\ m = {| Email.msg_subject := subject n;
                             Email.msg_recipients := [r];
                             Email.msg_body := message n |})
              (Email.sends tr).
Proof.
  intros Hpk batch out. subst out. unfold main_loop_turn. fold batch.
  unfold Email.try_except.
  assert (Hsub : batch `sublist_of` t) by apply filter_sublist.
  assert (Hnd : NoDup (ids batch))
    by (eapply sublist_NoDup; [exact Hpk|by apply ids_sublist]).
  destruct batch as [|b0 bs] eqn:Eb.
  { exists [Email.EvSleep (inject_Z WORKER_SLEEP_INTERVAL)].
    split; [done|]. constructor. }
  rewrite <- Eb in *. clear Eb b0 bs.
  set (h1 := mark_processing (load batch) (ids batch)).
  destruct (gather_trace (_send_one send_message random h1)
              (fun ref tr =>
                 Forall (fun m =>
                           exists n r,
                             n ∈ batch /\ r ∈ recipients n
                             /\ m = {| Email.msg_subject := subject n;
                                       Email.msg_recipients := [r];
                                       Email.msg_body := message n |})
                        (Email.sends tr))
              (ids batch)) with (s := s) as (trs & Htr & Hsegs).
  { intros ref s0. destruct (h1 !! ref) as [n0|] eqn:Eref.
    - rewrite (worker_send_one_eq send_message random h1 n0 ref s0 Eref).
      cbn [snd].
      destruct (marked_lookup_Some batch ref n0 Hnd Eref) as (n & Hn & _ & ->).
      change (subject (set_status PROCESSING n)) with (subject n).
      change (message (set_status PROCESSING n)) with (message n).
      change (recipients (set_status PROCESSING n)) with (recipients n).
      destruct (gather_trace
                  (fun r => Email.send_email send_message random r (subject n)
                              (message n) false 3)
                  (fun r tr =>
                     Forall (fun m => m = {| Email.msg_subject := subject n;
                                             Email.msg_recipients := [r];
                                             Email.msg_body := message n |})
                            (Email.sends tr))
                  (recipients n)) with (s := s0) as (trs' & Htr' & Hsegs').
      { intros r s1.
        destruct (send_email_run r (subject n) (message n) 3 s1 ltac:(lia))
          as (tr & H1 & H2 & _). by exists tr. }
      exists (concat trs'). split; [exact Htr'|].
      pose proof (sends_concat
                    (fun r m => m = {| Email.msg_subject := subject n;
                                       Email.msg_recipients := [r];
                                       Email.msg_body := message n |})
                    _ _ Hsegs') as Hs.
      eapply Forall_impl; [exact Hs|].
      intros m (r & Hr & ->). by exists n, r.
    - unfold _send_one. rewrite Eref. exists []. cbn.
      rewrite app_nil_r. split; [done|constructor]. }
  pose proof (sends_concat
                (fun (_ : string) m =>
                   exists n r,
                     n ∈ batch /\ r ∈ recipients n
                     /\ m = {| Email.msg_subject := subject n;
                               Email.msg_recipients := [r];
                               Email.msg_body := message n |})
                _ _ Hsegs) as Hs.
  unfold process_batch, Email.bind.
  destruct (Email.gather _ s) as [[results|e] s1]; cbn [snd] in *.
  - exists (concat trs). split; [exact Htr|].
    eapply Forall_impl; [exact Hs|]. by intros m (ref & _ & Hm).
  - unfold Email.sleep, Email.emit, Email.ret. cbn [fst snd Email.trace].
    exists (concat trs ++ [Email.EvSleep (inject_Z (WORKER_SLEEP_INTERVAL * 2))]).
    rewrite Htr, <- app_assoc. split; [done|].
    rewrite sends_app. apply Forall_app. split; [|constructor].
    eapply Forall_impl; [exact Hs|]. by intros m (ref & _ & Hm).
Qed.

End TurnSends.

Section TurnOutcomes.
Import Domain Worker.
Context {W : Type}.
Variable send_message : Email.MessageSchema -> W -> option Email.exn * W.
Variable random : W -> Q * W.


End TurnOutcomes.

(** ** Many turns of the worker *)

Section ManyTurns.
Import Domain Worker WorkerLoop.
Context {W : Type}.
Variable send_message : Email.MessageSchema -> W -> option Email.exn * W.
Variable random : W -> Q * W.

Lemma turn_step (limit now now' : Z) (locked : list string) (t : table)
    (s : Email.state W) :
  primary_key t ->
  exists t' s',
    main_loop_turn send_message random limit now now' locked t s
    = (Email.Ok t', s')
    /\ length t' = length t
    /\ primary_key t'
    /\ forall i n, t !! i = Some n ->
         exists n', t' !! i = Some n' /\ id n' = id n
                    /\ attempted_at_most_once n n'.
Proof.
  intros Hpk.
  destruct (main_loop_turn_rows send_message random (fun _ _ _ => True)
              limit now now' locked t s Hpk)
    as (t' & s' & Hout & Hlen & Hrows).
  { intros n s0 Hn.
    destruct (_send_one_returns send_message random
                (mark_processing (load (select_batch limit now locked t))
                   (ids (select_batch limit now locked t))) (id n) s0)
      as (ok & err & s1 & E). by eexists _, _, _. }
  assert (Hstep : forall i n, t !! i = Some n ->
            exists n', t' !! i = Some n' /\ id n' = id n
                       /\ attempted_at_most_once n n').
  { intros i n Hi. destruct (Hrows i n Hi) as [Hin Hnot].
    destruct (decide (id n ∈ ids (select_batch limit now locked t)))
      as [Hd|Hd].
    - assert (Hn : n ∈ select_batch limit now locked t).
      { apply list_elem_of_In, in_map_iff in Hd as (m & E & Hm).
        apply list_elem_of_In in Hm.
        destruct (claimed_is_claimable _ _ _ _ _ Hpk Hm) as [Hmt _].
        assert (n ∈ t) by (by eapply list_elem_of_lookup_2).
        by rewrite <- (primary_key_inj t m n Hpk). }
      destruct (Hin Hn) as (ok & err & _ & ->). eexists. split; [done|].
      split; [by rewrite id_settle|]. right.
      destruct (claimed_is_claimable _ _ _ _ _ Hpk Hn) as [_ Hc].
      unfold claimable in Hc. apply andb_true_iff in Hc as [Hdue _].
      destruct (due_spec _ _ Hdue) as [Hp _]. split; [done|].
      destruct (settle_counts now' ok err (set_status PROCESSING n)) as [-> ->].
      split; [done|]. destruct ok; [by left|by right].
    - assert (Hn : n ∉ select_batch limit now locked t).
      { intros Hn. apply Hd, list_elem_of_In, in_map. by apply list_elem_of_In. }
      rewrite (Hnot Hn). exists n. split; [done|]. split; [done|]. by left. }
  exists t', s'. split; [done|]. split; [done|]. split; [|done].
  unfold primary_key. rewrite (ids_of_rows t t' Hlen); [done|].
  intros i n Hi. destruct (Hstep i n Hi) as (n' & H1 & H2 & _). by exists n'.
Qed.

(** A row that is not PENDING is not touched by a turn. *)
Lemma turn_skips_settled (limit now now' : Z) (locked : list string)
    (t t' : table) (s s' : Email.state W) (i : nat) (n : Notification) :
  primary_key t ->
  main_loop_turn send_message random limit now now' locked t s
  = (Email.Ok t', s') ->
  t !! i = Some n -> status n <> PENDING -> t' !! i = Some n.
Proof.
  intros Hpk Hout Hi Hstatus.
  destruct (turn_step limit now now' locked t s Hpk)
    as (t1 & s1 & Hout1 & _ & _ & Hrows).
  rewrite Hout in Hout1. injection Hout1 as <- <-.
  destruct (Hrows i n Hi) as (n' & Hi' & _ & [->|(Hp & _)]); done.
Qed.

(** X19.  However many turns the loop makes, with whatever clocks and
    locks, it attempts each job at most once: on a table with a primary
    key, every row is in the end either exactly as it was, or was PENDING
    and now has its attempt count one higher and the status SENT or FAILED.
    The worker never retries a FAILED job and never sends a SENT one again. *)
Theorem worker_attempts_each_job_at_most_once
    (limit : Z) (turns : list (Z * Z * list string)) (t : table)
    (s : Email.state W) :
  primary_key t ->
  exists t',
    fst (main_loop_turns send_message random limit turns t s) = Email.Ok t'
    /\ length t' = length t
    /\ forall i n, t !! i = Some n ->
         exists n', t' !! i = Some n' /\ id n' = id n
                    /\ attempted_at_most_once n n'.
Proof.
  revert t s. induction turns as [|[[now now'] locked] rest IH];
    intros t s Hpk.
  - exists t. split; [done|]. split; [done|]. intros i n Hi.
    exists n. split; [done|]. split; [done|]. by left.
  - cbn [main_loop_turns]. unfold Email.bind.
    destruct (turn_step limit now now' locked t s Hpk)
      as (t1 & s1 & Hout & Hlen1 & Hpk1 & Hrows1).
    rewrite Hout.
    destruct (IH t1 s1 Hpk1) as (t' & Hout' & Hlen' & Hrows').
    exists t'. split; [done|]. split; [by rewrite Hlen'|].
    intros i n Hi.
    destruct (Hrows1 i n Hi) as (n1 & Hi1 & Hid1 & Hstep1).
    destruct (Hrows' i n1 Hi1) as (n' & Hi' & Hid' & Hstep').
    exists n'. split; [done|]. split; [by rewrite Hid'|].
    destruct Hstep1 as [->|(Hp & Hc & Hs)]; [done|].
    destruct Hstep' as [->|(Hp1 & _)].
    + right. done.
    + destruct Hs as [Hs|Hs]; rewrite Hs in Hp1; done.
Qed.

End ManyTurns.

(** ** The endpoint *)

Section Endpoint.
Import Domain Service Controller.
Variable gen_random_uuid : nat -> string.


End Endpoint.

(** ** Utilities *)

Section Tokens.
Import Utilities.

(** X21.  With [secrets.randbelow(n)] returning a value in [[0, n)],
    [generate_secure_number] returns a number of exactly [digits] decimal
    digits, that is between [10^(digits-1)] and [10^digits - 1]; a digit
    count of zero or less is replaced by 6. *)
Theorem generate_secure_number_has_the_digits
    (randbelow : Z -> Z) (digits : Z) :
  (forall n, 0 < n -> 0 <= randbelow n < n) ->
  let d := if digits <=? 0 then 6 else digits in
  10 ^ (d - 1) <= generate_secure_number randbelow digits <= 10 ^ d - 1
  /\ (digits <= 0 ->
      100000 <= generate_secure_number randbelow digits <= 999999).
Proof.
  intros Hrand d.
  assert (Hd : 1 <= d) by (subst d; destruct (Z.leb_spec digits 0); lia).
  assert (Hpow : 10 ^ d = 10 * 10 ^ (d - 1)).
  { replace d with (Z.succ (d - 1)) at 1 by lia. apply Z.pow_succ_r. lia. }
  assert (Hpos : 0 < 10 ^ (d - 1)) by (apply Z.pow_pos_nonneg; lia).
  assert (Hmain : 10 ^ (d - 1) <= generate_secure_number randbelow digits
                  <= 10 ^ d - 1).
  { unfold generate_secure_number. fold d.
    pose proof (Hrand (10 ^ d - 1 - 10 ^ (d - 1) + 1) ltac:(lia)). lia. }
  split; [exact Hmain|]. intros Hneg. subst d.
  destruct (Z.leb_spec digits 0); [|lia].
  change (10 ^ (6 - 1)) with 100000 in Hmain.
  change (10 ^ 6) with 1000000 in Hmain. lia.
Qed.

End Tokens.

Lemma generate_secure_number_has_the_digits_witness :
  (forall n, 0 < n -> 0 <= (fun n => n - 1) n < n)
  /\ 1000 <= Utilities.generate_secure_number (fun n => n - 1) 4 <= 9999.
Proof.
  assert (H : forall n, 0 < n -> 0 <= (fun n => n - 1) n < n)
    by (intros n Hn; cbn; lia).
  split; [exact H|].
  destruct (generate_secure_number_has_the_digits (fun n => n - 1) 4 H)
    as [Hb _]. exact Hb.
Defined.

Section Base64Prefix.
Import Utilities.

Lemma split_no_comma (data : string) :
  has_comma data = false -> split_at_first_comma data = (data, None).
Proof.
  induction data as [|c t IH]; [done|]. cbn.
  destruct (Ascii.eqb c ","); [done|]. cbn. intros H. by rewrite (IH H).
Qed.

Lemma split_prefix_comma (prefix payload : string) :
  has_comma prefix = false ->
  split_at_first_comma (prefix ++ String "," payload)
  = (prefix, Some payload).
Proof.
  induction prefix as [|c t IH].
  - intros _. reflexivity.
  - cbn [has_comma]. intros H. apply orb_false_iff in H as [Hc Ht].
    change (String c t ++ String "," payload)%string
      with (String c (t ++ String "," payload)).
    cbn [split_at_first_comma]. by rewrite Hc, (IH Ht).
Qed.

(** X22.  [clean_base64] returns exactly what follows the first comma:
    data without a comma come back unchanged, and a payload behind a prefix
    that has no comma (as in a data URL) comes back whole, commas of its own
    included. *)
Theorem clean_base64_drops_the_prefix (data prefix payload : string) :
  (has_comma data = false -> clean_base64 data = data)
  /\ (has_comma prefix = false ->
      clean_base64 (prefix ++ String "," payload) = payload).
Proof.
  unfold clean_base64, split_comma_once. split.
  - intros H. by rewrite (split_no_comma _ H).
  - intros H. by rewrite (split_prefix_comma _ _ H).
Qed.

End Base64Prefix.

Section Slugs.
Import Utilities.

Lemma alnum_not_hyphen (c : ascii) :
  alnum_lower c = true -> Ascii.eqb c "-" = false.
Proof.
  destruct c as [[] [] [] [] [] [] [] []]; vm_compute; congruence.
Qed.

Lemma lower_char_slug (c : ascii) :
  alnum_lower c || Ascii.eqb c "-" = true -> lower_char c = c.
Proof.
  destruct c as [[] [] [] [] [] [] [] []]; vm_compute; congruence.
Qed.

(** What [re.sub] leaves: characters of the class and single hyphens. *)
Lemma sub_runs_shape (b : bool) (s : string) :
  slug_chars (sub_runs b s) = true
  /\ double_hyphen (sub_runs b s) = false
  /\ (b = true -> starts_with_hyphen (sub_runs b s) = false).
Proof.
  revert b. induction s as [|c t IH]; intros b; [done|].
  cbn [sub_runs]. destruct (alnum_lower c) eqn:Ec.
  - destruct (IH false) as (H1 & H2 & _). cbn.
    rewrite Ec, H1, H2, (alnum_not_hyphen c Ec). done.
  - destruct b.
    + apply IH.
    + destruct (IH true) as (H1 & H2 & H3). cbn.
      rewrite H1, H2, (H3 eq_refl). done.
Qed.

Lemma lstrip_hyphens_shape (s : string) :
  slug_chars s = true -> double_hyphen s = false ->
  slug_chars (lstrip_hyphens s) = true
  /\ double_hyphen (lstrip_hyphens s) = false
  /\ starts_with_hyphen (lstrip_hyphens s) = false.
Proof.
  induction s as [|c t IH]; [done|]. cbn [slug_chars double_hyphen lstrip_hyphens].
  intros Hs Hd. apply andb_true_iff in Hs as [Hc Ht].
  apply orb_false_iff in Hd as [Hd1 Hd2].
  destruct (Ascii.eqb c "-") eqn:Ec.
  - by apply IH.
  - cbn. rewrite orb_false_r in Hc. by rewrite Ec, Hc, Ht, Hd2.
Qed.

Lemma rstrip_hyphens_head (s : string) :
  starts_with_hyphen s = false -> starts_with_hyphen (rstrip_hyphens s) = false.
Proof.
  destruct s as [|c t]; [done|]. cbn. intros Hc.
  destruct (rstrip_hyphens t); [by rewrite Hc|done].
Qed.

Lemma rstrip_hyphens_shape (s : string) :
  slug_chars s = true -> double_hyphen s = false ->
  slug_chars (rstrip_hyphens s) = true
  /\ double_hyphen (rstrip_hyphens s) = false
  /\ ends_with_hyphen (rstrip_hyphens s) = false
  /\ (starts_with_hyphen (rstrip_hyphens s) = true ->
      starts_with_hyphen s = true).
Proof.
  induction s as [|c t IH]; [done|].
  cbn [slug_chars double_hyphen rstrip_hyphens]. intros Hs Hd.
  apply andb_true_iff in Hs as [Hc Ht].
  apply orb_false_iff in Hd as [Hd1 Hd2].
  destruct (IH Ht Hd2) as (H1 & H2 & H3 & H4).
  destruct (rstrip_hyphens t) as [|c' t'] eqn:Et.
  - destruct (Ascii.eqb c "-") eqn:Ec; [done|]. cbn.
    rewrite orb_false_r in Hc. by rewrite Hc, Ec.
  - cbn [slug_chars double_hyphen ends_with_hyphen starts_with_hyphen].
    rewrite Hc. split; [exact H1|]. split; [|split; [exact H3|done]].
    apply orb_false_iff. split; [|exact H2].
    apply andb_false_iff in Hd1 as [Hd1|Hd1]; [by rewrite Hd1|].
    destruct (Ascii.eqb c' "-") eqn:Ec'; [|by rewrite andb_false_r].
    cbn in H4. rewrite (H4 Ec') in Hd1. done.
Qed.

(** X23.  Whatever the transliteration gives, a slug holds only
    characters of [[a-z0-9]] and hyphens, neither begins nor ends with a
    hyphen, and never has two hyphens in a row. *)
Theorem generate_slug_is_well_formed
    (unidecode : string -> string) (name : string) :
  let slug := generate_slug unidecode name in
  slug_chars slug = true
  /\ starts_with_hyphen slug = false
  /\ ends_with_hyphen slug = false
  /\ double_hyphen slug = false.
Proof.
  intros slug. subst slug. unfold generate_slug, strip_hyphens.
  destruct (sub_runs_shape false (lower (unidecode name))) as (H1 & H2 & _).
  destruct (lstrip_hyphens_shape _ H1 H2) as (L1 & L2 & L3).
  destruct (rstrip_hyphens_shape _ L1 L2) as (R1 & R2 & R3 & _).
  split; [exact R1|]. split; [by apply rstrip_hyphens_head|].
  split; [exact R3|exact R2].
Qed.

Lemma lower_slug (s : string) : slug_chars s = true -> lower s = s.
Proof.
  induction s as [|c t IH]; [done|]. cbn. intros H.
  apply andb_true_iff in H as [Hc Ht]. by rewrite (lower_char_slug c Hc), IH.
Qed.

Lemma sub_runs_slug (b : bool) (s : string) :
  slug_chars s = true -> double_hyphen s = false ->
  (b = true -> starts_with_hyphen s = false) ->
  sub_runs b s = s.
Proof.
  revert b. induction s as [|c t IH]; intros b Hs Hd Hb; [done|].
  cbn [slug_chars double_hyphen] in Hs, Hd.
  apply andb_true_iff in Hs as [Hc Ht].
  apply orb_false_iff in Hd as [Hd1 Hd2].
  cbn [sub_runs]. destruct (alnum_lower c) eqn:Ec.
  - by rewrite (IH false Ht Hd2).
  - cbn in Hc. destruct b.
    + specialize (Hb eq_refl). cbn in Hb. by rewrite Hb in Hc.
    + apply Ascii.eqb_eq in Hc as Hc'. subst c.
      rewrite (IH true Ht Hd2); [done|]. intros _.
      cbn in Hd1. done.
Qed.

Lemma lstrip_hyphens_id (s : string) :
  starts_with_hyphen s = false -> lstrip_hyphens s = s.
Proof. destruct s as [|c t]; [done|]. cbn. by intros ->. Qed.

Lemma rstrip_hyphens_id (s : string) :
  ends_with_hyphen s = false -> rstrip_hyphens s = s.
Proof.
  induction s as [|c t IH]; [done|]. cbn [ends_with_hyphen rstrip_hyphens].
  destruct t as [|c' t'].
  - cbn. by intros ->.
  - intros H. by rewrite (IH H).
Qed.

(** X24.  The slug of a slug is the slug itself, provided the
    transliteration leaves texts made of [[a-z0-9-]] alone (as it does for
    any ASCII text). *)
Theorem generate_slug_is_idempotent
    (unidecode : string -> string) (name : string) :
  (forall s, slug_chars s = true -> unidecode s = s) ->
  generate_slug unidecode (generate_slug unidecode name)
  = generate_slug unidecode name.
Proof.
  intros Hid. set (slug := generate_slug unidecode name).
  assert (Hs : slug_chars slug = true /\ starts_with_hyphen slug = false
               /\ ends_with_hyphen slug = false /\ double_hyphen slug = false).
  { subst slug. unfold generate_slug, strip_hyphens.
    destruct (sub_runs_shape false (lower (unidecode name))) as (H1 & H2 & _).
    destruct (lstrip_hyphens_shape _ H1 H2) as (L1 & L2 & L3).
    destruct (rstrip_hyphens_shape _ L1 L2) as (R1 & R2 & R3 & _).
    split; [exact R1|]. split; [by apply rstrip_hyphens_head|].
    split; [exact R3|exact R2]. }
  destruct Hs as (H1 & H2 & H3 & H4).
  unfold generate_slug at 1, strip_hyphens.
  rewrite (Hid slug H1), (lower_slug slug H1), (sub_runs_slug false slug H1 H4)
    by done.
  rewrite (lstrip_hyphens_id slug H2). by apply rstrip_hyphens_id.
Qed.

End Slugs.

Lemma generate_slug_is_idempotent_witness :
  (forall s, Utilities.slug_chars s = true -> (fun x : string => x) s = s)
  /\ Utilities.generate_slug (fun x => x)
       (Utilities.generate_slug (fun x => x) "  Hello, World!  ")
     = Utilities.generate_slug (fun x => x) "  Hello, World!  ".
Proof.
  assert (H : forall s, Utilities.slug_chars s = true
                        -> (fun x : string => x) s = s) by done.
  split; [exact H|].
  apply (generate_slug_is_idempotent (fun x => x) "  Hello, World!  " H).
Defined.

Example slug_of_a_title :
  Utilities.generate_slug (fun x => x) "  Hello, World!  " = "hello-world"%string.
Proof. reflexivity. Qed.

(** ** Instances *)

Lemma three_jobs_primary_key : Domain.primary_key Examples.three_jobs.
Proof. apply (bool_decide_unpack _). vm_compute. reflexivity. Qed.


Lemma background_runner_settles_the_listed_rows_witness :
  Domain.primary_key Examples.three_jobs
  /\ exists t',
       fst (Service.process_notifications_async Examples.refuses_three
              Examples.three_quarters ["j2"; "j3"]%string 11
              Examples.three_jobs Examples.fresh) = Email.Ok t'
       /\ length t' = length Examples.three_jobs.
Proof.
  split; [exact three_jobs_primary_key|].
  destruct (background_runner_settles_the_listed_rows Examples.refuses_three
              Examples.three_quarters ["j2"; "j3"]%string 11
              Examples.three_jobs Examples.fresh three_jobs_primary_key)
    as [(t' & H1 & H2 & _) _].
  exists t'. split; [exact H1|exact H2].
Defined.


Lemma worker_never_claims_unscheduled_jobs_witness :
  Domain.primary_key [Examples.unscheduled_job "u1"; Examples.job "j1" 5 1]
  /\ Examples.unscheduled_job "u1"
     ∈ [Examples.unscheduled_job "u1"; Examples.job "j1" 5 1]
  /\ Examples.unscheduled_job "u1"
     ∉ Worker.select_batch 50 10 []
         [Examples.unscheduled_job "u1"; Examples.job "j1" 5 1].
Proof.
  assert (H1 : Domain.primary_key
                 [Examples.unscheduled_job "u1"; Examples.job "j1" 5 1])
    by (apply (bool_decide_unpack _); vm_compute; reflexivity).
  assert (H2 : Examples.unscheduled_job "u1"
               ∈ [Examples.unscheduled_job "u1"; Examples.job "j1" 5 1])
    by apply list_elem_of_here.
  split; [exact H1|]. split; [exact H2|].
  destruct (worker_never_claims_unscheduled_jobs Examples.uuid 50 10 []
              [Examples.unscheduled_job "u1"; Examples.job "j1" 5 1]
              (Examples.unscheduled_job "u1") Examples.empty_store
              (Examples.request ["ada@example.org"]%string) 7 H1 H2)
    as [H _].
  apply H. left. reflexivity.
Defined.

Lemma concurrent_claims_are_disjoint_witness :
  Domain.primary_key Examples.three_jobs
  /\ (forall k, k ∈ Domain.ids (Worker.select_batch 2 10 [] Examples.three_jobs)
                -> k ∈ ["j1"; "j3"]%string)
  /\ forall n,
       n ∈ Worker.select_batch 2 10 ["j1"; "j3"]%string Examples.three_jobs ->
       n ∉ Worker.select_batch 2 10 [] Examples.three_jobs.
Proof.
  assert (H : forall k,
             k ∈ Domain.ids (Worker.select_batch 2 10 [] Examples.three_jobs)
             -> k ∈ ["j1"; "j3"]%string)
    by (intros k Hk; vm_compute in Hk; exact Hk).
  split; [exact three_jobs_primary_key|]. split; [exact H|].
  apply (concurrent_claims_are_disjoint 2 2 10 10 [] ["j1"; "j3"]%string
           Examples.three_jobs three_jobs_primary_key H).
Defined.

Lemma idle_turn_only_sleeps_witness :
  (Forall (fun n => Worker.claimable 10 [] n = false) Examples.three_jobs
   \/ 0 <= 0)
  /\ Worker.main_loop_turn Examples.accepts_all_mail Examples.three_quarters
       0 10 11 [] Examples.three_jobs Examples.fresh
     = (Email.Ok Examples.three_jobs,
        {| Email.world := Email.world Examples.fresh;
           Email.trace := Email.trace Examples.fresh
                          ++ [Email.EvSleep (inject_Z 10)] |}).
Proof.
  split; [right; lia|].
  apply (idle_turn_only_sleeps Examples.accepts_all_mail
           Examples.three_quarters 0 10 11 [] Examples.three_jobs
           Examples.fresh).
  right. lia.
Defined.

Lemma processed_jobs_are_never_claimed_again_witness :
  Domain.primary_key Examples.three_jobs
  /\ exists t',
       fst (Worker.main_loop_turn Examples.refuses_three
              Examples.three_quarters 2 10 11 [] Examples.three_jobs
              Examples.fresh) = Email.Ok t'
       /\ Domain.primary_key t'.
Proof.
  split; [exact three_jobs_primary_key|].
  destruct (processed_jobs_are_never_claimed_again Examples.refuses_three
              Examples.three_quarters 2 10 11 [] Examples.three_jobs
              Examples.fresh three_jobs_primary_key)
    as (t' & H1 & _ & H3 & _).
  exists t'. split; [exact H1|exact H3].
Defined.

Lemma worker_mails_only_recipients_of_claimed_jobs_witness :
  Domain.primary_key Examples.three_jobs
  /\ exists tr,
       Email.trace (snd (Worker.main_loop_turn Examples.refuses_three
                           Examples.three_quarters 2 10 11 []
                           Examples.three_jobs Examples.fresh))
       = Email.trace Examples.fresh ++ tr
       /\ Forall (fun m => length (Email.msg_recipients m) = 1%nat)
                 (Email.sends tr).
Proof.
  split; [exact three_jobs_primary_key|].
  destruct (worker_mails_only_recipients_of_claimed_jobs Examples.refuses_three
              Examples.three_quarters 2 10 11 [] Examples.three_jobs
              Examples.fresh three_jobs_primary_key) as (tr & H1 & H2).
  exists tr. split; [exact H1|].
  eapply Forall_impl; [exact H2|]. intros m (n & r & _ & _ & ->). reflexivity.
Defined.


Lemma worker_attempts_each_job_at_most_once_witness :
  Domain.primary_key Examples.three_jobs
  /\ exists t',
       fst (WorkerLoop.main_loop_turns Examples.refuses_three
              Examples.three_quarters 2
              [(10, 11, []); (20, 21, []); (30, 31, [])]
              Examples.three_jobs Examples.fresh) = Email.Ok t'
       /\ length t' = length Examples.three_jobs.
Proof.
  split; [exact three_jobs_primary_key|].
  destruct (worker_attempts_each_job_at_most_once Examples.refuses_three
              Examples.three_quarters 2
              [(10, 11, []); (20, 21, []); (30, 31, [])]
              Examples.three_jobs Examples.fresh three_jobs_primary_key)
    as (t' & H1 & H2 & _).
  exists t'. split; [exact H1|exact H2].
Defined.

(** Three turns over the three jobs, with a transport that refuses the
    first three messages: the failed job is not tried again, the job of
    priority 1 is sent in the second turn, the third turn is idle. *)
Example three_turns :
  match fst (WorkerLoop.main_loop_turns Examples.refuses_three
               Examples.three_quarters 2
               [(10, 11, []); (20, 21, []); (30, 31, [])]
               Examples.three_jobs Examples.fresh) with
  | Email.Ok t' =>
      List.map (fun n => (Domain.status n, Domain.attempt_count n,
                          Domain.last_attempt_at n)) t'
  | Email.Raise _ => []
  end
  = [(Domain.FAILED, 1, Some 11); (Domain.SENT, 1, Some 21);
     (Domain.SENT, 1, Some 11)].
Proof. vm_compute. reflexivity. Qed.

(** ** How much mail a call can cause *)

Section TransportLoad.
Import Email.
Context {W : Type}.
Variable send_message : MessageSchema -> W -> option exn * W.
Variable random : W -> Q * W.




End TransportLoad.


Section RunnerSends.
Import Domain Service.
Context {W : Type}.
Variable send_message : Email.MessageSchema -> W -> option Email.exn * W.
Variable random : W -> Q * W.

(** X26.  Every message the background runner hands to the transport is
    for a row of the table whose identifier it was given: it carries that
    row's subject and message and between 1 and 50 recipients, each a
    stripped, non-empty recipient of the row.  Rows that are not listed get
    no mail. *)
Theorem background_runner_mails_only_listed_rows
    (notification_ids : list string) (now : Z) (t : table)
    (s : Email.state W) :
  let out := process_notifications_async send_message random
               notification_ids now t s in
  exists tr,
    Email.trace (snd out) = Email.trace s ++ tr
    /\ Forall (fun m =>
                 exists n,
                   n ∈ t /\ id n ∈ notification_ids
                   /\ Email.msg_subject m = subject n
                   /\ Email.msg_body m = message n
                   /\ Email.msg_recipients m <> []
                   /\ Z.of_nat (length (Email.msg_recipients m)) <= 50
                   /\ Forall (fun r => r <> ""%string
                                       /\ exists r0, r0 ∈ recipients n
                                                     /\ r = Py.strip r0)
                             (Email.msg_recipients m))
              (Email.sends tr).
Proof.
  intros out. subst out. unfold process_notifications_async.
  destruct notification_ids as [|i0 rest] eqn:Eids.
  { exists []. rewrite app_nil_r. split; [done|constructor]. }
  rewrite <- Eids. clear Eids i0 rest.
  set (items := List.filter
                  (fun n => bool_decide (id n ∈ notification_ids)) t).
  assert (Hitems : forall n, n ∈ items -> n ∈ t /\ id n ∈ notification_ids).
  { intros n Hn. subst items. apply elem_of_bool_filter in Hn as [H1 H2].
    by apply bool_decide_eq_true in H2. }
  clearbody items. destruct items as [|it0 its] eqn:Eit.
  { exists []. rewrite app_nil_r. split; [done|constructor]. }
  rewrite <- Eit in *. clear Eit it0 its.
  destruct (gather_trace (_send_one send_message random)
              (fun n tr =>
                 Forall (fun m =>
                           Email.msg_subject m = subject n
                           /\ Email.msg_body m = message n
                           /\ Email.msg_recipients m <> []
                           /\ Z.of_nat (length (Email.msg_recipients m)) <= 50
                           /\ Forall (fun r => r <> ""%string
                                               /\ exists r0, r0 ∈ recipients n
                                                             /\ r = Py.strip r0)
                                     (Email.msg_recipients m))
                        (Email.sends tr))
              items) with (s := s) as (trs & Htr & Hsegs).
  { intros n s0. rewrite service_send_one_eq. cbn [snd].
    apply (send_email_to_many_messages_shape send_message random
             (recipients n) (subject n) (message n) 50 3 s0); lia. }
  pose proof (sends_concat
                (fun n m =>
                   Email.msg_subject m = subject n
                   /\ Email.msg_body m = message n
                   /\ Email.msg_recipients m <> []
                   /\ Z.of_nat (length (Email.msg_recipients m)) <= 50
                   /\ Forall (fun r => r <> ""%string
                                       /\ exists r0, r0 ∈ recipients n
                                                     /\ r = Py.strip r0)
                             (Email.msg_recipients m))
                _ _ Hsegs) as Hs.
  unfold Email.bind, Email.ret.
  destruct (Email.gather _ s) as [[results|e] s1]; cbn [snd] in *;
    exists (concat trs); (split; [exact Htr|]);
    (eapply Forall_impl; [exact Hs|]);
    intros m (n & Hn & Hm); exists n;
    destruct (Hitems n Hn) as [H1 H2];
    (split; [exact H1|]); (split; [exact H2|]); exact Hm.
Qed.

End RunnerSends.


Example endpoint_accepts_a_request :
  Controller.queue_email_notification Examples.uuid Examples.empty_store
    (Examples.request [" ada@example.org "; " "]%string) 7
  = ({| Controller.http_status := 202;
        Controller.body :=
          {| Controller.data := Controller.Text "Notification 'n0' has been queued.";
             Controller.success := true;
             Controller.message := "Notification accepted";
             Controller.status_code := 200 |} |},
     {| Service.rows :=
          [Service.new_row "n0" 7 ["ada@example.org"]%string
             (Examples.request [" ada@example.org "; " "]%string)];
        Service.uuids_drawn := 1 |},
     Some ["n0"%string]).
Proof. reflexivity. Qed.
